(** * Media organizer (main.py): a shallow embedding and its properties

    The embedding follows [main.py].  The world the program acts on is a
    file-system tree; the Python object [MediaOrganizer] is a record; the
    four agent tools are functions on the file system; the decision agent
    is a tree of tool calls whose continuation receives each tool's
    message; the [while True] loop of [organize] is a fuelled function
    that also returns the trace of scans and agent invocations.

    Modelling conventions
    - a path is the list of its components below the file-system root
      (absolute, normalised, no symbolic links); [path_str] renders it
      the way [str(Path)] does on POSIX;
    - characters are code points below 256, file contents are bytes;
    - one volume, POSIX [rename] semantics;
    - permissions are kept per regular file (readable, writable), which
      is what [open] consults in [calculate_folder_hashes];
    - whether the operating system lets the hash file be created in a
      folder and how many of its bytes the device takes is not part of
      the tree: [calculate_folder_hashes] receives it as a
      [write_fault], and the loop asks [os_write] for it at each call
      of the tool. *)

From stdpp Require Import base gmap strings list.
From Stdlib Require Import ZArith Ascii String List Lia.
From Stdlib Require Import Strings.Byte.
Import ListNotations.
Local Open Scope string_scope.
Local Open Scope list_scope.

(* ===================================================================== *)
(** * Paths *)
(* ===================================================================== *)

Definition path := list string.

(** [sep.join(parts)] *)
Fixpoint join (sep : string) (parts : list string) : string :=
  match parts with
  | [] => EmptyString
  | [x] => x
  | x :: rest => x +:+ sep +:+ join sep rest
  end.

(** [str(p)] for an absolute path. *)
Definition path_str (p : path) : string := "/" +:+ join "/" p.

(** [str(p.relative_to(folder))] for the components below [folder]. *)
Definition rel_str (rel : path) : string :=
  match rel with
  | [] => "."
  | _ => join "/" rel
  end.

(** Whether a string holds the path separator. *)
Fixpoint has_slash (s : string) : bool :=
  match s with
  | EmptyString => false
  | String c rest => Ascii.eqb c "/" || has_slash rest
  end.

(** [p.parent]; the parent of the root is the root. *)
Definition path_parent (p : path) : path := removelast p.

(** [p.name]; the name of the root is the empty string. *)
Definition path_name (p : path) : string := List.last p EmptyString.

(** [self.hash_filename], also written out as a literal in
    [calculate_folder_hashes]. *)
Definition hash_filename : string := ".media_hashes.json".

(* ===================================================================== *)
(** * The file system *)
(* ===================================================================== *)

(** A regular file carries the two permission bits [open] consults and
    its bytes; a directory lists its entries in the order [os.scandir]
    reports them. *)
#[local] Unset Elimination Schemes.
Inductive node : Type :=
| File (readable writable : bool) (data : list byte)
| Dir (entries : list (string * node)).
#[local] Set Elimination Schemes.

(** Structural induction: a property of all nodes may assume it for the
    entries of a directory. *)
Fixpoint node_induction (P : node -> Prop)
    (HFile : forall r w data, P (File r w data))
    (HDir : forall es, Forall (fun e => P (snd e)) es -> P (Dir es))
    (n : node) {struct n} : P n :=
  match n with
  | File r w data => HFile r w data
  | Dir es =>
      HDir es
        ((fix go (l : list (string * node)) : Forall (fun e => P (snd e)) l :=
            match l with
            | [] => @Forall_nil _ _
            | e :: l' =>
                @Forall_cons _ _ e l' (node_induction P HFile HDir (snd e)) (go l')
            end) es)
  end.

(** The entry called [name] in a directory listing (first match). *)
Fixpoint assoc (name : string) (es : list (string * node)) : option node :=
  match es with
  | [] => None
  | (k, v) :: rest => if String.eqb k name then Some v else assoc name rest
  end.

(** Replace the entry called [name] where it stands. *)
Fixpoint replace_entry (name : string) (v : node) (es : list (string * node))
  : list (string * node) :=
  match es with
  | [] => []
  | (k, c) :: rest =>
      if String.eqb k name then (k, v) :: rest
      else (k, c) :: replace_entry name v rest
  end.

(** The listing of a directory after one of its entries was written. *)
Definition put_entry (name : string) (v : node) (es : list (string * node))
  : list (string * node) :=
  match assoc name es with
  | Some _ => replace_entry name v es
  | None => es ++ [(name, v)]
  end.

(** Drop the entry called [name]. *)
Fixpoint remove_entry (name : string) (es : list (string * node))
  : list (string * node) :=
  match es with
  | [] => []
  | (k, c) :: rest =>
      if String.eqb k name then rest else (k, c) :: remove_entry name rest
  end.

Fixpoint fs_lookup (p : path) (n : node) : option node :=
  match p with
  | [] => Some n
  | name :: rest =>
      match n with
      | File _ _ _ => None
      | Dir es =>
          match assoc name es with
          | Some c => fs_lookup rest c
          | None => None
          end
      end
  end.

(** [Path.exists()], [Path.is_dir()], [Path.is_file()]. *)
Definition fs_exists (p : path) (fs : node) : bool :=
  match fs_lookup p fs with Some _ => true | None => false end.

Definition is_dir (p : path) (fs : node) : bool :=
  match fs_lookup p fs with Some (Dir _) => true | _ => false end.

Definition is_file (p : path) (fs : node) : bool :=
  match fs_lookup p fs with Some (File _ _ _) => true | _ => false end.

(** Bind [p] to [v]: the entry is replaced where it stands, or appended to
    its parent directory; nothing happens when the parent is missing. *)
Fixpoint fs_put (p : path) (v : node) (n : node) {struct p} : node :=
  match p with
  | [] => v
  | name :: rest =>
      match n with
      | File _ _ _ => n
      | Dir es =>
          match assoc name es with
          | Some c => Dir (replace_entry name (fs_put rest v c) es)
          | None =>
              match rest with
              | [] => Dir (es ++ [(name, v)])
              | _ :: _ => n
              end
          end
      end
  end.

(** Unlink [p] from its parent directory. *)
Fixpoint fs_remove (p : path) (n : node) {struct p} : node :=
  match p with
  | [] => n
  | name :: rest =>
      match n with
      | File _ _ _ => n
      | Dir es =>
          match rest with
          | [] => Dir (remove_entry name es)
          | _ :: _ =>
              match assoc name es with
              | Some c => Dir (replace_entry name (fs_remove rest c) es)
              | None => n
              end
          end
      end
  end.

(** A chain of fresh empty directories [a/b/c]. *)
Fixpoint new_dirs (p : path) : node :=
  match p with
  | [] => Dir []
  | name :: rest => Dir [(name, new_dirs rest)]
  end.

(** [Path.rglob("*")] lists, for every directory in pre-order, all of its
    entries in the order the directory holds them; [base] is the path of
    the directory the walk starts from.  A walk from a regular file
    yields nothing. *)
Fixpoint rglob (base : path) (n : node) {struct n} : list (path * node) :=
  match n with
  | File _ _ _ => []
  | Dir es =>
      List.map (fun e : string * node => (base ++ [fst e], snd e)) es
      ++ List.flat_map (fun e : string * node => rglob (base ++ [fst e]) (snd e)) es
  end.

(** No directory lists a name twice. *)
Fixpoint unique_names (es : list (string * node)) : bool :=
  match es with
  | [] => true
  | (k, _) :: rest =>
      match assoc k rest with
      | None => unique_names rest
      | Some _ => false
      end
  end.

Fixpoint well_formed (n : node) {struct n} : bool :=
  match n with
  | File _ _ _ => true
  | Dir es => unique_names es && List.forallb (fun e => well_formed (snd e)) es
  end.

(** [Path(p).rglob("*")] in the file system [fs]. *)
Definition rglob_at (p : path) (fs : node) : list (path * node) :=
  match fs_lookup p fs with
  | Some n => rglob p n
  | None => []
  end.

(* ===================================================================== *)
(** * Exceptions and the operating-system calls the tools make *)
(* ===================================================================== *)

Inductive exn : Type :=
| FileNotFoundError (p : path)
| FileExistsError (p : path)
| NotADirectoryError (p : path)
| IsADirectoryError (p : path)
| PermissionError (p : path)
| OSError (reason : string) (p q : path)
| DeviceError (reason : string)
| ShutilError (msg : string).

(** [str(e)] *)
Definition str_exn (e : exn) : string :=
  match e with
  | FileNotFoundError p =>
      "[Errno 2] No such file or directory: '" +:+ path_str p +:+ "'"
  | FileExistsError p => "[Errno 17] File exists: '" +:+ path_str p +:+ "'"
  | NotADirectoryError p => "[Errno 20] Not a directory: '" +:+ path_str p +:+ "'"
  | IsADirectoryError p => "[Errno 21] Is a directory: '" +:+ path_str p +:+ "'"
  | PermissionError p => "[Errno 13] Permission denied: '" +:+ path_str p +:+ "'"
  | OSError reason p q =>
      reason +:+ ": '" +:+ path_str p +:+ "' -> '" +:+ path_str q +:+ "'"
  | DeviceError reason => reason
  | ShutilError msg => msg
  end.

Inductive result (A : Type) : Type :=
| Ok (a : A)
| Raise (e : exn).
Arguments Ok {A} a.
Arguments Raise {A} e.

(** The directory part of [Path.mkdir(parents=True, exist_ok=True)]:
    components that exist must be directories, the first missing one
    starts a chain of new directories.  [None] when a regular file is in
    the way; nothing is created in that case, because the first
    [os.mkdir] already fails on the existing file. *)
Fixpoint mkdir_go (p : path) (n : node) {struct p} : option node :=
  match n with
  | File _ _ _ => None
  | Dir es =>
      match p with
      | [] => Some n
      | name :: rest =>
          match assoc name es with
          | Some c =>
              match mkdir_go rest c with
              | Some c' => Some (Dir (replace_entry name c' es))
              | None => None
              end
          | None => Some (Dir (es ++ [(name, new_dirs rest)]))
          end
      end
  end.

Definition mkdir_p (p : path) (fs : node) : result node :=
  match mkdir_go p fs with
  | Some fs' => Ok fs'
  | None =>
      if is_file p fs then Raise (FileExistsError p)
      else Raise (NotADirectoryError p)
  end.

(** [a] is [b] or an ancestor of [b]. *)
Fixpoint path_prefix (a b : path) : bool :=
  match a, b with
  | [], _ => true
  | x :: a', y :: b' => String.eqb x y && path_prefix a' b'
  | _ :: _, [] => false
  end.

Definition path_eqb (a b : path) : bool :=
  path_prefix a b && path_prefix b a.

(** [os.rename(src, dst)] on POSIX, one volume. *)
Definition os_rename (src dst : path) (fs : node) : result node :=
  match fs_lookup src fs with
  | None => Raise (FileNotFoundError src)
  | Some s =>
      match src, dst with
      | [], _ | _, [] => Raise (OSError "[Errno 16] Device or resource busy" src dst)
      | _ :: _, _ :: _ =>
          if path_eqb src dst then Ok fs
          else if negb (is_dir (path_parent dst) fs) then
            (if fs_exists (path_parent dst) fs
             then Raise (NotADirectoryError dst)
             else Raise (FileNotFoundError dst))
          else
            match s, fs_lookup dst fs with
            | File _ _ _, Some (Dir _) => Raise (IsADirectoryError dst)
            | File _ _ _, _ => Ok (fs_put dst s (fs_remove src fs))
            | Dir _, Some (File _ _ _) => Raise (NotADirectoryError dst)
            | Dir _, Some (Dir (_ :: _)) =>
                Raise (OSError "[Errno 39] Directory not empty" src dst)
            | Dir _, _ =>
                if path_prefix src dst
                then Raise (OSError "[Errno 22] Invalid argument" src dst)
                else Ok (fs_put dst s (fs_remove src fs))
            end
      end
  end.

(** [shutil.move(src, dst)].  A destination that is a directory receives
    the source under its own name.  When [os.rename] fails, [shutil.move]
    falls back to copying; on one volume every such failure also defeats
    the copy ([copytree] refuses an existing destination, a directory is
    never copied into itself), so the failure is what the call raises. *)
Definition shutil_move (src dst : path) (fs : node) : result node :=
  if is_dir dst fs then
    if path_eqb src dst then os_rename src dst fs
    else
      let real_dst := dst ++ [path_name src] in
      if fs_exists real_dst fs || path_eqb src [] then
        Raise (ShutilError ("Destination path '" +:+ path_str real_dst
                            +:+ "' already exists"))
      else
        match os_rename src real_dst fs with
        | Ok fs' => Ok fs'
        | Raise e =>
            if is_dir src fs && path_prefix src dst then
              Raise (ShutilError ("Cannot move a directory '" +:+ path_str src
                                  +:+ "' into itself '" +:+ path_str dst +:+ "'."))
            else Raise e
        end
  else
    match os_rename src dst fs with
    | Ok fs' => Ok fs'
    | Raise e =>
        if is_dir src fs && path_prefix src dst then
          Raise (ShutilError ("Cannot move a directory '" +:+ path_str src
                              +:+ "' into itself '" +:+ path_str dst +:+ "'."))
        else if is_dir src fs && is_file dst fs then
          Raise (FileExistsError dst)
        else Raise e
    end.

(* ===================================================================== *)
(** * Tool: move_rename_file *)
(* ===================================================================== *)

Inductive move_outcome : Type :=
| SourceNotFound
| MoveFailed (e : exn)
| Moved.

(** The string the tool returns. *)
Definition move_message (old_path new_path : path) (r : move_outcome) : string :=
  match r with
  | SourceNotFound =>
      "Error: Source path " +:+ path_str old_path +:+ " does not exist"
  | MoveFailed e => "Error moving file: " +:+ str_exn e
  | Moved =>
      "Successfully moved " +:+ path_str old_path +:+ " to " +:+ path_str new_path
  end.

Definition move_rename_file (old_path new_path : path) (fs : node)
  : move_outcome * node :=
  if negb (fs_exists old_path fs) then (SourceNotFound, fs)
  else
    match mkdir_p (path_parent new_path) fs with
    | Raise e => (MoveFailed e, fs)
    | Ok fs1 =>
        match shutil_move old_path new_path fs1 with
        | Raise e => (MoveFailed e, fs1)
        | Ok fs2 => (Moved, fs2)
        end
    end.

(* ===================================================================== *)
(** * Tool: mark_completed *)
(* ===================================================================== *)

(** The tool only builds a message: it has no [self] and touches neither
    the file system nor [processed_files]. *)
Definition mark_completed (file_path : string) : string :=
  "File " +:+ file_path +:+ " has been marked as completed and properly organized.".

(* ===================================================================== *)
(** * hashlib.md5 (RFC 1321) *)
(* ===================================================================== *)

Module MD5.
Local Open Scope Z_scope.

Definition w32 (x : Z) : Z := x mod 2 ^ 32.

Definition not32 (x : Z) : Z := Z.lxor x 0xffffffff.

Definition rotl (x c : Z) : Z :=
  w32 (Z.lor (Z.shiftl x c) (Z.shiftr x (32 - c))).

Definition shifts : list Z :=
  [ 7; 12; 17; 22;  7; 12; 17; 22;  7; 12; 17; 22;  7; 12; 17; 22;
    5;  9; 14; 20;  5;  9; 14; 20;  5;  9; 14; 20;  5;  9; 14; 20;
    4; 11; 16; 23;  4; 11; 16; 23;  4; 11; 16; 23;  4; 11; 16; 23;
    6; 10; 15; 21;  6; 10; 15; 21;  6; 10; 15; 21;  6; 10; 15; 21 ].

Definition K : list Z :=
  [ 0xd76aa478; 0xe8c7b756; 0x242070db; 0xc1bdceee;
    0xf57c0faf; 0x4787c62a; 0xa8304613; 0xfd469501;
    0x698098d8; 0x8b44f7af; 0xffff5bb1; 0x895cd7be;
    0x6b901122; 0xfd987193; 0xa679438e; 0x49b40821;
    0xf61e2562; 0xc040b340; 0x265e5a51; 0xe9b6c7aa;
    0xd62f105d; 0x02441453; 0xd8a1e681; 0xe7d3fbc8;
    0x21e1cde6; 0xc33707d6; 0xf4d50d87; 0x455a14ed;
    0xa9e3e905; 0xfcefa3f8; 0x676f02d9; 0x8d2a4c8a;
    0xfffa3942; 0x8771f681; 0x6d9d6122; 0xfde5380c;
    0xa4beea44; 0x4bdecfa9; 0xf6bb4b60; 0xbebfbc70;
    0x289b7ec6; 0xeaa127fa; 0xd4ef3085; 0x04881d05;
    0xd9d4d039; 0xe6db99e5; 0x1fa27cf8; 0xc4ac5665;
    0xf4292244; 0x432aff97; 0xab9423a7; 0xfc93a039;
    0x655b59c3; 0x8f0ccc92; 0xffeff47d; 0x85845dd1;
    0x6fa87e4f; 0xfe2ce6e0; 0xa3014314; 0x4e0811a1;
    0xf7537e82; 0xbd3af235; 0x2ad7d2bb; 0xeb86d391 ].

(** The [n] low bytes of [x], least significant first. *)
Fixpoint le_bytes (n : nat) (x : Z) : list Z :=
  match n with
  | O => []
  | S n' => (x mod 256) :: le_bytes n' (x / 256)
  end.

Definition pad (msg : list Z) : list Z :=
  let len := Z.of_nat (List.length msg) in
  msg ++ [0x80]
      ++ List.repeat 0 (Z.to_nat ((55 - len) mod 64))
      ++ le_bytes 8 ((8 * len) mod 2 ^ 64).

(** Little-endian 32-bit words of a block. *)
Fixpoint words (bs : list Z) : list Z :=
  match bs with
  | b0 :: b1 :: b2 :: b3 :: rest =>
      (b0 + 256 * b1 + 65536 * b2 + 16777216 * b3) :: words rest
  | _ => []
  end.

Definition state : Type := Z * Z * Z * Z.

Definition init : state := (0x67452301, 0xefcdab89, 0x98badcfe, 0x10325476).

Definition step (M : list Z) (st : state) (i : nat) : state :=
  let '(A, B, C, D) := st in
  let F :=
    if (i <? 16)%nat then Z.lor (Z.land B C) (Z.land (not32 B) D)
    else if (i <? 32)%nat then Z.lor (Z.land D B) (Z.land (not32 D) C)
    else if (i <? 48)%nat then Z.lxor (Z.lxor B C) D
    else Z.lxor C (Z.lor B (not32 D)) in
  let g :=
    if (i <? 16)%nat then i
    else if (i <? 32)%nat then ((5 * i + 1) mod 16)%nat
    else if (i <? 48)%nat then ((3 * i + 5) mod 16)%nat
    else ((7 * i) mod 16)%nat in
  let F' := w32 (F + A + List.nth i K 0 + List.nth g M 0) in
  (D, w32 (B + rotl F' (List.nth i shifts 0)), B, C).

Definition block (st : state) (bs : list Z) : state :=
  let '(a0, b0, c0, d0) := st in
  let '(A, B, C, D) := List.fold_left (step (words bs)) (List.seq 0 64) st in
  (w32 (a0 + A), w32 (b0 + B), w32 (c0 + C), w32 (d0 + D)).

Fixpoint blocks (fuel : nat) (st : state) (bs : list Z) : state :=
  match fuel, bs with
  | S fuel', _ :: _ => blocks fuel' (block st (List.firstn 64 bs)) (List.skipn 64 bs)
  | _, _ => st
  end.

Definition hex_digit (d : Z) : ascii :=
  List.nth (Z.to_nat d)
    ["0"; "1"; "2"; "3"; "4"; "5"; "6"; "7";
     "8"; "9"; "a"; "b"; "c"; "d"; "e"; "f"]%char "0"%char.

Definition hex_byte (b : Z) : string :=
  String (hex_digit (b / 16)) (String (hex_digit (b mod 16)) EmptyString).

Definition digest (msg : list byte) : list Z :=
  let bs := pad (List.map (fun b => Z.of_N (Byte.to_N b)) msg) in
  let '(a, b, c, d) := blocks (List.length bs) init bs in
  le_bytes 4 a ++ le_bytes 4 b ++ le_bytes 4 c ++ le_bytes 4 d.

Definition hexdigest (msg : list byte) : string :=
  String.concat EmptyString (List.map hex_byte (digest msg)).

End MD5.

(** The hash object: [update] appends to what was fed so far and
    [hexdigest] hashes all of it. *)
Definition md5_new : list byte := [].
Definition md5_update (h chunk : list byte) : list byte := h ++ chunk.
Definition md5_hexdigest (h : list byte) : string := MD5.hexdigest h.

(** [iter(lambda: f.read(size), b)] with [b] the empty bytes: the successive reads of an open
    file, up to the first empty one. *)
Fixpoint read_chunks (fuel size : nat) (data : list byte) : list (list byte) :=
  match fuel, data with
  | S fuel', _ :: _ =>
      List.firstn size data :: read_chunks fuel' size (List.skipn size data)
  | _, _ => []
  end.

(** The body of the hashing loop for one readable file. *)
Definition file_md5 (data : list byte) : string :=
  md5_hexdigest
    (List.fold_left md5_update (read_chunks (List.length data) 4096 data) md5_new).

(* ===================================================================== *)
(** * json.dump(file_hashes, f, indent=2) *)
(* ===================================================================== *)

(** A Python [dict] from strings to strings, in insertion order. *)
Definition dict := list (string * string).

(** [d[k] = v]: an existing key keeps its place. *)
Fixpoint dict_set (k v : string) (d : dict) : dict :=
  match d with
  | [] => [(k, v)]
  | (k', v') :: rest =>
      if String.eqb k' k then (k', v) :: rest else (k', v') :: dict_set k v rest
  end.

Definition json_escape_char (c : ascii) : string :=
  let n := nat_of_ascii c in
  if Nat.eqb n 34 then "\" +:+ String c EmptyString
  else if Nat.eqb n 92 then "\\"
  else if Nat.eqb n 8 then "\b"
  else if Nat.eqb n 12 then "\f"
  else if Nat.eqb n 10 then "\n"
  else if Nat.eqb n 13 then "\r"
  else if Nat.eqb n 9 then "\t"
  else if (Nat.leb 32 n && Nat.leb n 126)%bool then String c EmptyString
  else "\u00" +:+ MD5.hex_byte (Z.of_nat n).

Fixpoint json_escape (s : string) : string :=
  match s with
  | EmptyString => EmptyString
  | String c rest => json_escape_char c +:+ json_escape rest
  end.

Definition json_string (s : string) : string :=
  String (ascii_of_nat 34) (json_escape s) +:+ String (ascii_of_nat 34) EmptyString.

Definition newline : string := String (ascii_of_nat 10) EmptyString.

Definition json_item (kv : string * string) : string :=
  "  " +:+ json_string (fst kv) +:+ ": " +:+ json_string (snd kv).

Definition json_dumps_indent2 (d : dict) : string :=
  match d with
  | [] => "{}"
  | _ =>
      "{" +:+ newline
          +:+ join ("," +:+ newline) (List.map json_item d)
          +:+ newline +:+ "}"
  end.

(* ===================================================================== *)
(** * Tool: calculate_folder_hashes *)
(* ===================================================================== *)

(** [file_path.relative_to(folder)] for a path the walk of [folder]
    produced. *)
Definition relative_to (folder file_path : path) : path :=
  List.skipn (List.length folder) file_path.

(** How the operating system takes the write of the hash file: it lets
    it go, it refuses to create a file in the folder (no write
    permission on the directory), or the device fails once [written]
    bytes got through (device full, input/output error). *)
Inductive write_fault : Type :=
| NoFault
| CreateDenied
| FailsAfter (written : nat).

Definition device_full : exn :=
  DeviceError "[Errno 28] No space left on device".

(** The writes of [json.dump] into the file [open] returned: the file
    was truncated or created before the first byte is written, and a
    write that fails leaves the bytes that got through. *)
Definition write_bytes (fault : write_fault) (p : path) (r w : bool)
    (data : list byte) (fs : node) : option exn * node :=
  match fault with
  | FailsAfter n =>
      if Nat.ltb n (List.length data) then
        (Some device_full, fs_put p (File r w (List.firstn n data)) fs)
      else (None, fs_put p (File r w data) fs)
  | _ => (None, fs_put p (File r w data) fs)
  end.

(** [with open(p, "w") as f: json.dump(..., f)]: the exception raised,
    if any, and the file system left behind.  [open] truncates an
    existing regular file, which keeps its permission bits, and creates
    a missing one if the operating system allows it; what is written
    before a failure stays. *)
Definition write_file (fault : write_fault) (p : path)
    (data : list byte) (fs : node) : option exn * node :=
  match fs_lookup p fs with
  | Some (Dir _) => (Some (IsADirectoryError p), fs)
  | Some (File r w _) =>
      if w then write_bytes fault p r w data fs
      else (Some (PermissionError p), fs)
  | None =>
      if is_dir (path_parent p) fs then
        match fault with
        | CreateDenied => (Some (PermissionError p), fs)
        | _ => write_bytes fault p true true data fs
        end
      else (Some (FileNotFoundError p), fs)
  end.

(** The [for file_path in folder.rglob("*")] loop: [open(file_path, "rb")]
    raises on a file that may not be read, which leaves the loop. *)
Fixpoint hash_loop (folder : path) (items : list (path * node))
    (file_hashes : dict) : result dict :=
  match items with
  | [] => Ok file_hashes
  | (file_path, n) :: rest =>
      match n with
      | Dir _ => hash_loop folder rest file_hashes
      | File readable _ data =>
          if String.eqb (path_name file_path) ".media_hashes.json" then
            hash_loop folder rest file_hashes
          else if readable then
            hash_loop folder rest
              (dict_set (rel_str (relative_to folder file_path))
                        (file_md5 data) file_hashes)
          else Raise (PermissionError file_path)
      end
  end.

(** The items the loop opens: regular files not called like the hash
    file. *)
Definition hashable (item : path * node) : bool :=
  match snd item with
  | Dir _ => false
  | File _ _ _ => negb (String.eqb (path_name (fst item)) ".media_hashes.json")
  end.

(** The mapping the tool builds for [folder], when the loop completes. *)
Definition folder_hashes (folder : path) (fs : node) : result dict :=
  hash_loop folder (rglob_at folder fs) [].

Inductive hash_outcome : Type :=
| NotADirectory
| HashFailed (e : exn)
| HashWritten.

Definition hash_message (folder : path) (r : hash_outcome) : string :=
  match r with
  | NotADirectory => "Error: " +:+ path_str folder +:+ " is not a directory"
  | HashFailed e => "Error calculating hashes: " +:+ str_exn e
  | HashWritten => "Successfully created hash file for " +:+ path_str folder
  end.

(** The tool; every exception, also one raised while the hash file is
    written, is caught and reported. *)
Definition calculate_folder_hashes (fault : write_fault) (folder : path)
    (fs : node) : hash_outcome * node :=
  if negb (is_dir folder fs) then (NotADirectory, fs)
  else
    let hash_file := folder ++ [".media_hashes.json"] in
    match folder_hashes folder fs with
    | Raise e => (HashFailed e, fs)
    | Ok file_hashes =>
        match
          write_file fault hash_file
            (list_byte_of_string (json_dumps_indent2 file_hashes)) fs
        with
        | (Some e, fs') => (HashFailed e, fs')
        | (None, fs') => (HashWritten, fs')
        end
    end.

(** What the manifest of [folder] holds, if there is one. *)
Definition manifest_content (folder : path) (fs : node) : option (list byte) :=
  match fs_lookup (folder ++ [".media_hashes.json"]) fs with
  | Some (File _ _ data) => Some data
  | _ => None
  end.

(* ===================================================================== *)
(** * The organizer object and get_directory_state *)
(* ===================================================================== *)

Record MediaOrganizer : Type := {
  target_directory : path;
  media_type : string;
  processed_files : gset string
}.

(** [MediaOrganizer.__init__] *)
Definition new_organizer (target : path) (kind : string) : MediaOrganizer :=
  {| target_directory := target; media_type := kind; processed_files := ∅ |}.

Definition set_processed (o : MediaOrganizer) (s : gset string) : MediaOrganizer :=
  {| target_directory := target_directory o;
     media_type := media_type o;
     processed_files := s |}.

(** One element of [files]. *)
Record file_info : Type := {
  fi_path : string;
  fi_name : string;
  fi_size : nat;
  fi_parent : string
}.

Record directory_state : Type := {
  ds_directory : string;
  ds_media_type : string;
  ds_files : list file_info;
  ds_total_files : nat
}.

(** The test the walk applies to each item: a regular file, not the hash
    file, no hash file next to it, not processed yet. *)
Definition keep_item (o : MediaOrganizer) (fs : node) (item : path * node) : bool :=
  match snd item with
  | Dir _ => false
  | File _ _ _ =>
      if String.eqb (path_name (fst item)) hash_filename then false
      else if fs_exists (path_parent (fst item) ++ [hash_filename]) fs then false
      else negb (bool_decide (path_str (fst item) ∈ processed_files o))
  end.

(** The items of the walk that end up in [files]. *)
Definition snapshot_items (o : MediaOrganizer) (fs : node) : list (path * node) :=
  List.filter (keep_item o fs) (rglob_at (target_directory o) fs).

Definition node_size (n : node) : nat :=
  match n with
  | File _ _ data => List.length data
  | Dir _ => 0
  end.

Definition make_file_info (item : path * node) : file_info :=
  {| fi_path := path_str (fst item);
     fi_name := path_name (fst item);
     fi_size := node_size (snd item);
     fi_parent := path_str (path_parent (fst item)) |}.

Definition get_directory_state (o : MediaOrganizer) (fs : node) : directory_state :=
  let files := List.map make_file_info (snapshot_items o fs) in
  {| ds_directory := path_str (target_directory o);
     ds_media_type := media_type o;
     ds_files := files;
     ds_total_files := List.length files |}.

(* ===================================================================== *)
(** * The decision agent and its tools *)
(* ===================================================================== *)

Inductive tool_call : Type :=
| SearchTmdb (query kind : string)
| MoveRenameFile (old_path new_path : path)
| MarkCompleted (file_path : string)
| CalculateFolderHashes (folder_path : path).

(** One invocation of the agent executor: it calls tools, reads what each
    returns, and ends with a result dictionary (of which the loop reads
    the key [output]) or with an exception. *)
Inductive agent_run : Type :=
| AgentReturn (output : option string)
| AgentRaise (error : string)
| AgentCall (c : tool_call) (k : string -> agent_run).

Inductive agent_end : Type :=
| Returned (output : option string)
| Raised (error : string).

Inductive event : Type :=
| Scanned (state : directory_state)
| Invoked (state : directory_state)
| ToolRan (c : tool_call) (message : string)
| Recorded (file_path : string).

(** [s.lower()] on code points below 256. *)
Definition lower_char (c : ascii) : ascii :=
  let n := nat_of_ascii c in
  if (Nat.leb 65 n && Nat.leb n 90)%bool then ascii_of_nat (n + 32)
  else if (Nat.leb 192 n && Nat.leb n 222 && negb (Nat.eqb n 215))%bool
       then ascii_of_nat (n + 32)
  else c.

Fixpoint lower (s : string) : string :=
  match s with
  | EmptyString => EmptyString
  | String c rest => String (lower_char c) (lower rest)
  end.

(** [needle in s] *)
Fixpoint contains (needle s : string) : bool :=
  if String.prefix needle s then true
  else
    match s with
    | EmptyString => false
    | String _ rest => contains needle rest
    end.

(** [result.get("output", default)] with the empty string as default. *)
Definition result_output (output : option string) : string :=
  match output with
  | Some s => s
  | None => EmptyString
  end.

Definition mentions_completion (output : option string) : bool :=
  contains "marked as completed" (lower (result_output output)).

(** [self.processed_files.add(p)] *)
Definition add_processed (p : string) (processed : gset string) : gset string :=
  {[p]} ∪ processed.

(** The [for file_info in directory_state["files"][:1]] loop. *)
Definition record_first (files : list file_info) (processed : gset string)
  : gset string :=
  List.fold_left (fun s f => add_processed (fi_path f) s)
                 (List.firstn 1 files) processed.

Inductive loop_end : Type :=
| Done
| Aborted
| Running.

Record run : Type := {
  run_end : loop_end;
  run_self : MediaOrganizer;
  run_fs : node;
  run_trace : list event
}.

(** How one pass through the body of [while True] ends. *)
Inductive pass : Type :=
| Break (e : loop_end) (fs : node)
| Again (o : MediaOrganizer) (fs : node).

(** The organizer object after a pass. *)
Definition pass_self (o : MediaOrganizer) (p : pass) : MediaOrganizer :=
  match p with
  | Break _ _ => o
  | Again o' _ => o'
  end.

Section Loop.

(** What the metadata service answers, as the tool reports it. *)
Variable search_tmdb : string -> string -> string.

(** How the operating system takes the write of the hash file of a
    folder, in a given state of the file system: permissions on
    directories and the room left on the device are not part of
    [node]. *)
Variable os_write : path -> node -> write_fault.

(** The agent executor: its run for the input of the [i]-th invocation. *)
Variable agent : nat -> directory_state -> agent_run.

Definition exec_tool (c : tool_call) (fs : node) : string * node :=
  match c with
  | SearchTmdb query kind => (search_tmdb query kind, fs)
  | MoveRenameFile old_path new_path =>
      let '(r, fs') := move_rename_file old_path new_path fs in
      (move_message old_path new_path r, fs')
  | MarkCompleted file_path => (mark_completed file_path, fs)
  | CalculateFolderHashes folder_path =>
      let '(r, fs') :=
        calculate_folder_hashes (os_write folder_path fs) folder_path fs in
      (hash_message folder_path r, fs')
  end.

(** [self.agent.invoke(input_data)] *)
Fixpoint run_agent (a : agent_run) (fs : node)
  : agent_end * node * list event :=
  match a with
  | AgentReturn output => (Returned output, fs, [])
  | AgentRaise error => (Raised error, fs, [])
  | AgentCall c k =>
      let '(message, fs1) := exec_tool c fs in
      let '(e, fs2, log) := run_agent (k message) fs1 in
      (e, fs2, ToolRan c message :: log)
  end.

(** One pass through the body of the loop. *)
Definition organize_pass (i : nat) (o : MediaOrganizer) (fs : node)
  : pass * list event :=
  let directory_state := get_directory_state o fs in
  match ds_files directory_state with
  | [] => (Break Done fs, [Scanned directory_state])
  | first :: _ =>
      match run_agent (agent i directory_state) fs with
      | (Raised _, fs', log) =>
          (Break Aborted fs',
           Scanned directory_state :: Invoked directory_state :: log)
      | (Returned output, fs', log) =>
          if mentions_completion output then
            (Again
               (set_processed o
                  (record_first (ds_files directory_state) (processed_files o)))
               fs',
             Scanned directory_state :: Invoked directory_state :: log
               ++ [Recorded (fi_path first)])
          else
            (Again o fs',
             Scanned directory_state :: Invoked directory_state :: log)
      end
  end.

(** [organize]: the loop, cut after [fuel] passes. *)
Fixpoint organize_from (fuel i : nat) (o : MediaOrganizer) (fs : node) : run :=
  match fuel with
  | O => {| run_end := Running; run_self := o; run_fs := fs; run_trace := [] |}
  | S fuel' =>
      match organize_pass i o fs with
      | (Break e fs', tr) =>
          {| run_end := e; run_self := o; run_fs := fs'; run_trace := tr |}
      | (Again o' fs', tr) =>
          let r := organize_from fuel' (S i) o' fs' in
          {| run_end := run_end r; run_self := run_self r;
             run_fs := run_fs r; run_trace := tr ++ run_trace r |}
      end
  end.

Definition organize (fuel : nat) (o : MediaOrganizer) (fs : node) : run :=
  organize_from fuel 0 o fs.

End Loop.

(** How often the agent was invoked, and how often the directory was
    scanned, in a trace. *)
Definition invocations (tr : list event) : nat :=
  List.length (List.filter (fun e => match e with Invoked _ => true | _ => false end) tr).

Definition scans (tr : list event) : nat :=
  List.length (List.filter (fun e => match e with Scanned _ => true | _ => false end) tr).

(** The file system after the tool calls of a trace, run in order. *)
Definition replay (search_tmdb : string -> string -> string)
    (os_write : path -> node -> write_fault)
    (tr : list event) (fs : node) : node :=
  List.fold_left
    (fun fs e =>
       match e with
       | ToolRan c _ => snd (exec_tool search_tmdb os_write c fs)
       | _ => fs
       end)
    tr fs.

(* ===================================================================== *)
(** * What a path names *)
(* ===================================================================== *)

(** What [os.stat] tells about a path: a directory, or a regular file
    with its permission bits and bytes. *)
Inductive entry_kind : Type :=
| IsDir
| IsFile (readable writable : bool) (data : list byte).

Definition node_kind (n : node) : entry_kind :=
  match n with
  | File r w data => IsFile r w data
  | Dir _ => IsDir
  end.

Definition stat (p : path) (fs : node) : option entry_kind :=
  match fs_lookup p fs with
  | Some n => Some (node_kind n)
  | None => None
  end.

(** Names a directory can hold: not empty, no separator. *)
Definition valid_name (s : string) : bool :=
  negb (String.eqb s EmptyString) && negb (has_slash s).

Fixpoint valid_names (n : node) {struct n} : bool :=
  match n with
  | File _ _ _ => true
  | Dir es =>
      List.forallb (fun e => valid_name (fst e) && valid_names (snd e)) es
  end.

(** Python's [dict.get]: the value last stored under a key. *)
Fixpoint dict_get (k : string) (d : dict) : option string :=
  match d with
  | [] => None
  | (k', v) :: rest => if String.eqb k' k then Some v else dict_get k rest
  end.

(* ===================================================================== *)
(** * The script: configuration check and main *)
(* ===================================================================== *)

(** [not os.getenv(name)]: a variable that is unset or empty. *)
Definition unset (value : option string) : bool :=
  match value with
  | None => true
  | Some EmptyString => true
  | Some (String _ _) => false
  end.

(** How the script ends: [sys.exit(code)] after printing, or the return
    of [organize]. *)
Inductive script_end : Type :=
| Exit (code : nat) (printed : list string)
| Organized (r : run).

Section Script.

Variable search_tmdb : string -> string -> string.
Variable os_write : path -> node -> write_fault.
Variable agent : nat -> directory_state -> agent_run.

(** The path a command-line string names ([Path(s)], [os.path.exists(s)]
    resolve it the same way). *)
Variable to_path : string -> path.

(** [main()], with [sys.argv] and the loop cut after [fuel] passes. *)
Definition main (fuel : nat) (argv : list string) (fs : node) : script_end :=
  match argv with
  | [_; directory_path; kind] =>
      if negb (List.existsb (String.eqb kind) ["movie"; "tv"; "audiobook"]) then
        Exit 1 ["Invalid media type. Use: movie, tv, or audiobook"]
      else if negb (fs_exists (to_path directory_path) fs) then
        Exit 1 ["Directory " +:+ directory_path +:+ " does not exist"]
      else
        Organized
          (organize search_tmdb os_write agent fuel
             (new_organizer (to_path directory_path) kind) fs)
  | _ =>
      Exit 1 ["Usage: python main.py <directory_path> <media_type>";
              "Media types: movie, tv, audiobook"]
  end.

(** The module run as a script: the two configuration checks at import,
    then [main]. *)
Definition script (openrouter_api_key tmdb_api_key : option string)
    (fuel : nat) (argv : list string) (fs : node) : script_end :=
  if unset openrouter_api_key then
    Exit 1 ["Please set OPENROUTER_API_KEY environment variable"]
  else if unset tmdb_api_key then
    Exit 1 ["Please set TMDB_API_KEY environment variable"]
  else main fuel argv fs.

End Script.

(* ===================================================================== *)
(** * Example worlds and agents *)
(* ===================================================================== *)

(** [/D/F] is finished (it holds a hash file) and has a subfolder. *)
Definition fs_finished_folder : node :=
  Dir [("D",
        Dir [("F",
              Dir [(".media_hashes.json", File true true []);
                   ("sub", Dir [("a.mkv", File true true ["x"%byte])])])])].

(** Two loose files in [/t]. *)
Definition fs_two_files : node :=
  Dir [("t", Dir [("a.mkv", File true true ["a"%byte]);
                  ("b.mkv", File true true ["b"%byte])])].

(** An empty target directory [/t]. *)
Definition fs_empty_target : node := Dir [("t", Dir [])].

(** [/t/locked.mkv] may not be read. *)
Definition fs_locked_file : node :=
  Dir [("t", Dir [("a.mkv", File true true ["a"%byte]);
                  ("locked.mkv", File false true ["b"%byte])])].

Definition tmdb_down (query kind : string) : string := "{}".

(** An operating system that takes every write. *)
Definition disk_ok (folder : path) (fs : node) : write_fault := NoFault.

(** Moves the second file into a folder of its own, marks it, and reports
    what [mark_completed] said. *)
Definition agent_moves_second (i : nat) (state : directory_state) : agent_run :=
  AgentCall (MoveRenameFile ["t"; "b.mkv"] ["t"; "Film"; "b.mkv"]) (fun _ =>
  AgentCall (MarkCompleted "/t/Film/b.mkv") (fun message =>
  AgentReturn (Some message))).

(** Moves the second file into a folder of its own, hashes the folder,
    marks the file, and reports what [mark_completed] said. *)
Definition agent_files_second (i : nat) (state : directory_state) : agent_run :=
  AgentCall (MoveRenameFile ["t"; "b.mkv"] ["t"; "Film"; "b.mkv"]) (fun _ =>
  AgentCall (CalculateFolderHashes ["t"; "Film"]) (fun _ =>
  AgentCall (MarkCompleted "/t/Film/b.mkv") (fun message =>
  AgentReturn (Some message)))).

(** Marks the second file and reports in words of its own. *)
Definition agent_marks_quietly (i : nat) (state : directory_state) : agent_run :=
  AgentCall (MarkCompleted "/t/b.mkv") (fun _ => AgentReturn (Some "ok")).

(** Returns at once and reports that nothing was done. *)
Definition agent_idle (i : nat) (state : directory_state) : agent_run :=
  AgentReturn (Some "nothing to do").

(** Returns at once and reports a completion. *)
Definition agent_ticks (i : nat) (state : directory_state) : agent_run :=
  AgentReturn (Some "Marked as completed.").

(** The components of an absolute path string, read off between the
    slashes. *)
Fixpoint split_slash (s cur : string) : list string :=
  match s with
  | EmptyString => [cur]
  | String c rest =>
      if Ascii.eqb c "/" then cur :: split_slash rest EmptyString
      else split_slash rest (cur +:+ String c EmptyString)
  end.

Definition absolute_path (s : string) : path :=
  List.filter (fun x => negb (String.eqb x EmptyString)) (split_slash s EmptyString).

(** Fails after its first tool call. *)
Definition agent_fails (i : nat) (state : directory_state) : agent_run :=
  AgentCall (SearchTmdb "a" "movie") (fun _ => AgentRaise "connection reset").

(* ===================================================================== *)
(** * The model on concrete inputs *)
(* ===================================================================== *)

(** The test suite of RFC 1321. *)
Example md5_empty : MD5.hexdigest [] = "d41d8cd98f00b204e9800998ecf8427e".
Proof. vm_compute. reflexivity. Qed.

Example md5_abc :
  MD5.hexdigest (list_byte_of_string "abc") = "900150983cd24fb0d6963f7d28e17f72".
Proof. vm_compute. reflexivity. Qed.

Example md5_message_digest :
  MD5.hexdigest (list_byte_of_string "message digest")
  = "f96b697d7cb7938d525a2f31aaf161d0".
Proof. vm_compute. reflexivity. Qed.

(** Two blocks. *)
Example md5_two_blocks :
  file_md5 (List.repeat "a"%byte 70) = "0f5c6c4e740bfcc08c3c26ccb2673d46".
Proof. vm_compute. reflexivity. Qed.

Example json_dumps_empty : json_dumps_indent2 [] = "{}".
Proof. reflexivity. Qed.

Example json_dumps_two :
  json_dumps_indent2 [("a/b.mkv", "00"); ("c", "ff")]
  = "{" +:+ newline
    +:+ "  " +:+ json_string "a/b.mkv" +:+ ": " +:+ json_string "00" +:+ ","
    +:+ newline
    +:+ "  " +:+ json_string "c" +:+ ": " +:+ json_string "ff" +:+ newline
    +:+ "}".
Proof. reflexivity. Qed.

Example json_escapes :
  json_escape (String (ascii_of_nat 9) (String (ascii_of_nat 127) "\"))
  = "\t\u007f\\".
Proof. reflexivity. Qed.

(** The walk lists a directory before it descends. *)
Example rglob_order :
  List.map fst (rglob_at ["D"] fs_finished_folder)
  = [["D"; "F"];
     ["D"; "F"; ".media_hashes.json"]; ["D"; "F"; "sub"];
     ["D"; "F"; "sub"; "a.mkv"]].
Proof. reflexivity. Qed.

(** A move creates the missing parents of its destination. *)
Example move_creates_parents :
  move_rename_file ["t"; "b.mkv"] ["t"; "Film (2012)"; "Film (2012).mkv"]
    fs_two_files
  = (Moved,
     Dir [("t", Dir [("a.mkv", File true true ["a"%byte]);
                     ("Film (2012)",
                      Dir [("Film (2012).mkv", File true true ["b"%byte])])])]).
Proof. reflexivity. Qed.

(** A destination that is a directory receives the source under its own
    name, and refuses it when that name is taken. *)
Example move_into_directory :
  fst (move_rename_file ["t"; "a.mkv"] ["t"] fs_two_files)
  = MoveFailed (ShutilError "Destination path '/t/a.mkv' already exists").
Proof. reflexivity. Qed.

Example move_over_file :
  move_rename_file ["t"; "a.mkv"] ["t"; "b.mkv"] fs_two_files
  = (Moved, Dir [("t", Dir [("b.mkv", File true true ["a"%byte])])]).
Proof. reflexivity. Qed.

(** A run to [Done]: the agent files the second entry away, the loop
    records the first, and the second scan finds nothing left. *)
Example run_to_done :
  let r := organize tmdb_down disk_ok agent_files_second 5 (new_organizer ["t"] "movie")
             fs_two_files in
  run_end r = Done
  /\ invocations (run_trace r) = 1
  /\ scans (run_trace r) = 2
  /\ elements (processed_files (run_self r)) = ["/t/a.mkv"]
  /\ manifest_content ["t"; "Film"] (run_fs r)
     = Some (list_byte_of_string
               ("{" +:+ newline +:+ "  " +:+ json_string "b.mkv" +:+ ": "
                +:+ json_string "92eb5ffee6ae2fec3ad71c777531578f"
                +:+ newline +:+ "}")).
Proof. vm_compute. repeat split. Qed.

(* ===================================================================== *)
(** * Paths: basic facts *)
(* ===================================================================== *)

Lemma path_name_snoc (p : path) (x : string) : path_name (p ++ [x]) = x.
Proof. unfold path_name. apply List.last_last. Qed.

Lemma path_parent_snoc (p : path) (x : string) : path_parent (p ++ [x]) = p.
Proof. unfold path_parent. apply List.removelast_last. Qed.

Lemma path_name_app (folder rel : path) :
  rel <> [] -> path_name (folder ++ rel) = path_name rel.
Proof.
  intros Hrel. unfold path_name.
  induction folder as [|x folder IH]; simpl; [reflexivity|].
  destruct (folder ++ rel) eqn:E.
  - apply List.app_eq_nil in E. destruct E; contradiction.
  - exact IH.
Qed.

Lemma relative_to_app (folder rel : path) :
  relative_to folder (folder ++ rel) = rel.
Proof.
  unfold relative_to. induction folder as [|x folder IH]; simpl; auto.
Qed.

(* ===================================================================== *)
(** * Directory listings *)
(* ===================================================================== *)

Lemma assoc_In name es v : assoc name es = Some v -> In (name, v) es.
Proof.
  induction es as [|[k c] es IH]; simpl; [discriminate|].
  destruct (String.eqb_spec k name) as [->|Hne].
  - intros [= ->]. now left.
  - intros H. right. auto.
Qed.

Lemma unique_names_assoc name es v :
  unique_names es = true -> In (name, v) es -> assoc name es = Some v.
Proof.
  induction es as [|[k c] es IH]; simpl; [contradiction|].
  destruct (assoc k es) eqn:Hk; [discriminate|].
  intros Hu [[= -> ->]|Hin].
  - now rewrite String.eqb_refl.
  - destruct (String.eqb_spec k name) as [->|Hne]; [|auto].
    rewrite (IH Hu Hin) in Hk. discriminate.
Qed.

Lemma assoc_replace_entry name v es c :
  assoc name es = Some c -> assoc name (replace_entry name v es) = Some v.
Proof.
  induction es as [|[k c'] es IH]; simpl; [discriminate|].
  destruct (String.eqb k name) eqn:E; simpl; rewrite E; auto.
Qed.

Lemma replace_entry_same name es c :
  assoc name es = Some c -> replace_entry name c es = es.
Proof.
  induction es as [|[k c'] es IH]; simpl; [reflexivity|].
  destruct (String.eqb k name) eqn:E.
  - now intros [= ->].
  - intros H. now rewrite IH.
Qed.

Lemma assoc_snoc_fresh name v es :
  assoc name es = None -> assoc name (es ++ [(name, v)]) = Some v.
Proof.
  induction es as [|[k c'] es IH]; simpl.
  - now rewrite String.eqb_refl.
  - destruct (String.eqb k name); [discriminate|auto].
Qed.

Lemma assoc_put_entry name v es : assoc name (put_entry name v es) = Some v.
Proof.
  unfold put_entry. destruct (assoc name es) eqn:E.
  - eapply assoc_replace_entry; eauto.
  - now apply assoc_snoc_fresh.
Qed.

(* ===================================================================== *)
(** * Lookup and update *)
(* ===================================================================== *)

Lemma fs_lookup_app p q fs :
  fs_lookup (p ++ q) fs =
  match fs_lookup p fs with
  | Some n => fs_lookup q n
  | None => None
  end.
Proof.
  revert fs. induction p as [|x p IH]; intros fs; simpl; [reflexivity|].
  destruct fs as [r w d|es]; [reflexivity|].
  destruct (assoc x es); [apply IH|reflexivity].
Qed.

Lemma fs_put_child folder name v fs es :
  fs_lookup folder fs = Some (Dir es) ->
  fs_lookup folder (fs_put (folder ++ [name]) v fs)
  = Some (Dir (put_entry name v es)).
Proof.
  revert fs. induction folder as [|x folder IH]; intros fs; simpl.
  - intros [= ->]. unfold put_entry. simpl. now destruct (assoc name es).
  - destruct fs as [r w d|es0]; [discriminate|].
    destruct (assoc x es0) as [c|] eqn:Hx; [|discriminate].
    intros Hc. simpl. erewrite assoc_replace_entry by eauto. now apply IH.
Qed.

Lemma fs_put_same p v fs : fs_lookup p fs = Some v -> fs_put p v fs = fs.
Proof.
  revert fs. induction p as [|x p IH]; intros fs; simpl.
  - now intros [= ->].
  - destruct fs as [r w d|es]; [reflexivity|].
    destruct (assoc x es) as [c|] eqn:Hx; [|discriminate].
    intros Hc. rewrite (IH _ Hc). now rewrite (replace_entry_same _ _ _ Hx).
Qed.

Lemma is_dir_lookup p fs :
  is_dir p fs = true -> exists es, fs_lookup p fs = Some (Dir es).
Proof.
  unfold is_dir. destruct (fs_lookup p fs) as [[r w d|es]|]; try discriminate.
  eauto.
Qed.

(* ===================================================================== *)
(** * The hashing loop looks at hashable items only *)
(* ===================================================================== *)

Lemma hash_loop_filter folder items d :
  hash_loop folder items d = hash_loop folder (List.filter hashable items) d.
Proof.
  revert d. induction items as [|[p n] items IH]; intros d; simpl; [reflexivity|].
  unfold hashable at 1. simpl.
  destruct n as [r w data|es]; simpl; [|apply IH].
  destruct (String.eqb (path_name p) ".media_hashes.json") eqn:E; simpl.
  - apply IH.
  - rewrite E. destruct r; [apply IH|reflexivity].
Qed.

Lemma rglob_replace_hash_file folder es r w data r0 w0 data0 :
  assoc ".media_hashes.json" es = Some (File r0 w0 data0) ->
  List.filter hashable
    (rglob folder (Dir (replace_entry ".media_hashes.json" (File r w data) es)))
  = List.filter hashable (rglob folder (Dir es)).
Proof.
  intros Hes. simpl. rewrite !List.filter_app. f_equal.
  - induction es as [|[k c] es IH]; simpl in *; [reflexivity|].
    destruct (String.eqb_spec k ".media_hashes.json") as [->|Hne].
    + injection Hes as ->. simpl. unfold hashable. simpl.
      now rewrite path_name_snoc.
    + simpl. now rewrite IH.
  - f_equal. induction es as [|[k c] es IH]; simpl in *; [reflexivity|].
    destruct (String.eqb_spec k ".media_hashes.json") as [->|Hne].
    + injection Hes as ->. reflexivity.
    + simpl. now rewrite IH.
Qed.

Lemma rglob_append_hash_file folder es r w data :
  List.filter hashable
    (rglob folder (Dir (es ++ [(".media_hashes.json", File r w data)])))
  = List.filter hashable (rglob folder (Dir es)).
Proof.
  simpl. rewrite List.map_app, List.flat_map_app, !List.filter_app. simpl.
  unfold hashable at 2. simpl. rewrite path_name_snoc. simpl.
  now rewrite !List.app_nil_r.
Qed.

Lemma rglob_put_hash_file folder es r w data :
  match assoc ".media_hashes.json" es with
  | Some (Dir _) => False
  | _ => True
  end ->
  List.filter hashable
    (rglob folder (Dir (put_entry ".media_hashes.json" (File r w data) es)))
  = List.filter hashable (rglob folder (Dir es)).
Proof.
  unfold put_entry.
  destruct (assoc ".media_hashes.json" es) as [[r0 w0 d0|?]|] eqn:E; intros H.
  - eapply rglob_replace_hash_file; eauto.
  - contradiction.
  - apply rglob_append_hash_file.
Qed.

(* ===================================================================== *)
(** * Writing the hash file *)
(* ===================================================================== *)

Lemma fs_lookup_child folder name fs es :
  fs_lookup folder fs = Some (Dir es) ->
  fs_lookup (folder ++ [name]) fs = assoc name es.
Proof.
  intros H. rewrite fs_lookup_app, H. simpl. now destruct (assoc name es).
Qed.

Lemma is_dir_parent_child folder name fs es :
  fs_lookup folder fs = Some (Dir es) ->
  is_dir (path_parent (folder ++ [name])) fs = true.
Proof. intros H. rewrite path_parent_snoc. unfold is_dir. now rewrite H. Qed.

(* ===================================================================== *)
(** * The walk and lookup agree *)
(* ===================================================================== *)

Lemma well_formed_entry es name c :
  well_formed (Dir es) = true -> In (name, c) es -> well_formed c = true.
Proof.
  simpl. intros [_ Hall]%andb_prop Hin.
  rewrite List.forallb_forall in Hall. exact (Hall _ Hin).
Qed.

Lemma well_formed_lookup p fs n :
  well_formed fs = true -> fs_lookup p fs = Some n -> well_formed n = true.
Proof.
  revert fs. induction p as [|x p IH]; intros fs Hwf; simpl.
  - now intros [= <-].
  - destruct fs as [r w d|es]; [discriminate|].
    destruct (assoc x es) as [c|] eqn:Hx; [|discriminate].
    apply IH. eapply well_formed_entry; eauto using assoc_In.
Qed.

(** Every item of the walk is found by lookup, in a well-formed tree. *)
Lemma rglob_lookup n :
  forall base p c,
    well_formed n = true ->
    In (p, c) (rglob base n) ->
    exists rel, rel <> [] /\ p = base ++ rel /\ fs_lookup rel n = Some c.
Proof.
  induction n as [r w d|es IH] using node_induction; intros base p c Hwf Hin.
  - destruct Hin.
  - simpl in Hin. apply List.in_app_or in Hin.
    assert (Hu : unique_names es = true).
    { simpl in Hwf. now apply andb_prop in Hwf. }
    destruct Hin as [Hin|Hin].
    + apply List.in_map_iff in Hin. destruct Hin as ([k v] & [= <- <-] & Hin).
      exists [k]. repeat split; [discriminate|]. simpl.
      now rewrite (unique_names_assoc _ _ _ Hu Hin).
    + apply List.in_flat_map in Hin. destruct Hin as ([k v] & Hin & Hsub).
      rewrite List.Forall_forall in IH.
      destruct (IH _ Hin (base ++ [k]) p c) as (rel & Hrel & -> & Hl).
      * eapply well_formed_entry; eauto.
      * exact Hsub.
      * exists (k :: rel). repeat split; [discriminate| |].
        -- now rewrite <- List.app_assoc.
        -- simpl. now rewrite (unique_names_assoc _ _ _ Hu Hin).
Qed.

(** Everything below a directory is an item of its walk. *)
Lemma lookup_rglob rel :
  forall base n c,
    rel <> [] ->
    fs_lookup rel n = Some c ->
    In (base ++ rel, c) (rglob base n).
Proof.
  induction rel as [|k rel IH]; intros base n c Hne; [contradiction|].
  simpl. destruct n as [r w d|es]; [discriminate|].
  destruct (assoc k es) as [v|] eqn:Hk; [|discriminate].
  apply assoc_In in Hk. intros Hl. simpl. apply List.in_or_app.
  destruct rel as [|k' rel].
  - left. injection Hl as <-. apply List.in_map_iff. exists (k, v). auto.
  - right. apply List.in_flat_map. exists (k, v). split; [exact Hk|].
    simpl. replace (base ++ k :: k' :: rel) with ((base ++ [k]) ++ k' :: rel)
      by now rewrite <- List.app_assoc.
    apply IH; [discriminate|exact Hl].
Qed.

Lemma rglob_at_lookup folder fs p c :
  well_formed fs = true ->
  In (p, c) (rglob_at folder fs) ->
  exists rel, rel <> [] /\ p = folder ++ rel /\ fs_lookup (folder ++ rel) fs = Some c.
Proof.
  unfold rglob_at. intros Hwf.
  destruct (fs_lookup folder fs) as [n|] eqn:Hf; [|contradiction].
  intros Hin.
  destruct (rglob_lookup n folder p c) as (rel & Hrel & -> & Hl); auto.
  - eapply well_formed_lookup; eauto.
  - exists rel. repeat split; auto. now rewrite fs_lookup_app, Hf.
Qed.

Lemma lookup_rglob_at folder rel fs c :
  rel <> [] ->
  fs_lookup (folder ++ rel) fs = Some c ->
  In (folder ++ rel, c) (rglob_at folder fs).
Proof.
  intros Hrel. rewrite fs_lookup_app. unfold rglob_at.
  destruct (fs_lookup folder fs) as [n|]; [|discriminate].
  now apply lookup_rglob.
Qed.

(* ===================================================================== *)
(** * Keys of the hash mapping *)
(* ===================================================================== *)

Lemma has_slash_app a b : has_slash (a +:+ b) = has_slash a || has_slash b.
Proof.
  induction a as [|c a IH]; simpl; [reflexivity|].
  rewrite IH. now rewrite orb_assoc.
Qed.

Lemma join_has_slash x y rest : has_slash (join "/" (x :: y :: rest)) = true.
Proof.
  change (join "/" (x :: y :: rest)) with (x +:+ "/" +:+ join "/" (y :: rest)).
  rewrite !has_slash_app. simpl. now rewrite orb_true_r.
Qed.

(** A relative path whose last component is not the hash file's name is
    not rendered as that name. *)
Lemma rel_str_not_hash_filename rel :
  rel <> [] -> path_name rel <> hash_filename -> rel_str rel <> hash_filename.
Proof.
  destruct rel as [|x [|y rest]]; intros Hne Hname; [contradiction| |].
  - exact Hname.
  - intros Heq. pose proof (join_has_slash x y rest) as Hs.
    unfold rel_str in Heq. rewrite Heq in Hs. discriminate.
Qed.

Lemma dict_set_keys k v d k' :
  In k' (List.map fst (dict_set k v d)) -> k' = k \/ In k' (List.map fst d).
Proof.
  induction d as [|[k0 v0] d IH]; simpl.
  - intros [<-|[]]. now left.
  - destruct (String.eqb k0 k); simpl; intros [<-|H]; auto.
    destruct (IH H); auto.
Qed.

(** Each key of the mapping was there before the loop or renders the
    relative path of a readable regular file of the walk that is not
    called like the hash file. *)
Lemma hash_loop_keys folder items :
  forall d d',
    hash_loop folder items d = Ok d' ->
    forall k, In k (List.map fst d') ->
      In k (List.map fst d)
      \/ exists p w data,
           In (p, File true w data) items
           /\ path_name p <> hash_filename
           /\ k = rel_str (relative_to folder p).
Proof.
  induction items as [|[p n] items IH]; intros d d'; simpl.
  - intros [= <-]. auto.
  - destruct n as [r w data|es].
    + destruct (String.eqb_spec (path_name p) ".media_hashes.json") as [E|E].
      * intros H k Hk. destruct (IH _ _ H k Hk) as [|(q & w' & dat & Hin & Hq)]; auto.
        right. exists q, w', dat. auto.
      * destruct r; [|discriminate].
        intros H k Hk. destruct (IH _ _ H k Hk) as [Hd|(q & w' & dat & Hin & Hq)].
        -- apply dict_set_keys in Hd. destruct Hd as [->|Hd]; auto.
           right. exists p, w, data. auto.
        -- right. exists q, w', dat. auto.
    + intros H k Hk. destruct (IH _ _ H k Hk) as [|(q & w' & dat & Hin & Hq)]; auto.
      right. exists q, w', dat. auto.
Qed.

(** An unreadable hashable file stops the loop with an exception. *)
Lemma hash_loop_unreadable folder items :
  forall d p w data,
    In (p, File false w data) items ->
    path_name p <> hash_filename ->
    exists q, hash_loop folder items d = Raise (PermissionError q).
Proof.
  induction items as [|[q n] items IH]; intros d p w data Hin Hname; [destruct Hin|].
  simpl. destruct Hin as [[= -> ->]|Hin].
  - destruct (String.eqb_spec (path_name p) ".media_hashes.json") as [E|E];
      [contradiction|eauto].
  - destruct n as [r w0 dat|es]; [|eauto].
    destruct (String.eqb (path_name q) ".media_hashes.json"); [eauto|].
    destruct r; eauto.
Qed.

(* ===================================================================== *)
(** * Claims about the tools *)
(* ===================================================================== *)

(** C4. A move whose source does not exist reports that the source was
    not found and leaves the file system as it was: the destination is
    not created and neither are directories leading to it. *)
Theorem C4_move_missing_source (src dst : path) (fs : node) :
  fs_exists src fs = false ->
  move_rename_file src dst fs = (SourceNotFound, fs)
  /\ move_message src dst (fst (move_rename_file src dst fs))
     = "Error: Source path " +:+ path_str src +:+ " does not exist"
  /\ forall p, fs_lookup p (snd (move_rename_file src dst fs)) = fs_lookup p fs.
Proof.
  intros H. unfold move_rename_file. rewrite H. simpl. auto.
Qed.

Lemma C4_move_missing_source_witness :
  move_rename_file ["t"; "zz.mkv"] ["new"; "Film"; "zz.mkv"] fs_two_files
  = (SourceNotFound, fs_two_files)
  /\ fs_exists ["new"] fs_two_files = false.
Proof.
  split; [|reflexivity].
  apply (C4_move_missing_source ["t"; "zz.mkv"] ["new"; "Film"; "zz.mkv"]
           fs_two_files).
  reflexivity.
Defined.

(** C5. In a well-formed file system, every key of the mapping that
    [calculate_folder_hashes] builds for a folder is the rendered path,
    relative to the folder, of a regular file below it whose name is not
    the hash file's; in particular no key is the hash file itself. *)
Theorem C5_hash_keys (folder : path) (fs : node) (file_hashes : dict) :
  well_formed fs = true ->
  folder_hashes folder fs = Ok file_hashes ->
  forall k, In k (List.map fst file_hashes) ->
    k <> hash_filename
    /\ exists rel r w data,
         rel <> []
         /\ k = rel_str rel
         /\ fs_lookup (folder ++ rel) fs = Some (File r w data)
         /\ path_name rel <> hash_filename.
Proof.
  intros Hwf Hh k Hk. unfold folder_hashes in Hh.
  destruct (hash_loop_keys _ _ _ _ Hh k Hk) as [[]|(p & w & data & Hin & Hname & ->)].
  destruct (rglob_at_lookup _ _ _ _ Hwf Hin) as (rel & Hrel & -> & Hl).
  rewrite relative_to_app. rewrite (path_name_app _ _ Hrel) in Hname.
  split; [now apply rel_str_not_hash_filename|].
  exists rel, true, w, data. auto.
Qed.

Lemma C5_hash_keys_witness :
  "sub/a.mkv" <> hash_filename
  /\ exists rel r w data,
       rel <> []
       /\ "sub/a.mkv" = rel_str rel
       /\ fs_lookup (["D"; "F"] ++ rel) fs_finished_folder = Some (File r w data)
       /\ path_name rel <> hash_filename.
Proof.
  eapply (C5_hash_keys ["D"; "F"] fs_finished_folder).
  - reflexivity.
  - vm_compute. reflexivity.
  - vm_compute. left. reflexivity.
Defined.

(* ===================================================================== *)
(** * The directory snapshot *)
(* ===================================================================== *)

Lemma snapshot_item_kept o fs item :
  In item (snapshot_items o fs) ->
  In item (rglob_at (target_directory o) fs) /\ keep_item o fs item = true.
Proof. unfold snapshot_items. apply List.filter_In. Qed.

Lemma keep_item_inv o fs item :
  keep_item o fs item = true ->
  (exists r w data, snd item = File r w data)
  /\ path_name (fst item) <> hash_filename
  /\ fs_exists (path_parent (fst item) ++ [hash_filename]) fs = false
  /\ path_str (fst item) ∉ processed_files o.
Proof.
  unfold keep_item. destruct (snd item) as [r w data|es]; [|discriminate].
  destruct (String.eqb_spec (path_name (fst item)) hash_filename) as [E|E];
    [discriminate|].
  destruct (fs_exists (path_parent (fst item) ++ [hash_filename]) fs);
    [discriminate|].
  intros H%negb_true_iff%bool_decide_eq_false. eauto 10.
Qed.

(** No path of [processed_files] is listed. *)
Lemma snapshot_excludes_processed o fs p :
  p ∈ processed_files o ->
  ~ In p (List.map fi_path (ds_files (get_directory_state o fs))).
Proof.
  intros Hp Hin. simpl in Hin. rewrite List.map_map in Hin.
  apply List.in_map_iff in Hin. destruct Hin as (item & <- & Hin).
  apply snapshot_item_kept in Hin. destruct Hin as [_ Hk].
  apply keep_item_inv in Hk. destruct Hk as (_ & _ & _ & Hnot).
  exact (Hnot Hp).
Qed.

(** C1, as the code has it.  When a folder [F] holds a hash file, the
    snapshot lists no file whose immediate parent directory is [F]; the
    listed files are regular files of the walk of the target directory,
    and none of them is a hash file. *)
Theorem C1_snapshot_skips_finished_parent (o : MediaOrganizer) (fs : node)
    (F : path) :
  fs_exists (F ++ [hash_filename]) fs = true ->
  forall f, In f (ds_files (get_directory_state o fs)) ->
    exists item,
      f = make_file_info item
      /\ In item (rglob_at (target_directory o) fs)
      /\ path_parent (fst item) <> F
      /\ fi_name f <> hash_filename.
Proof.
  intros HF f Hf. simpl in Hf. apply List.in_map_iff in Hf.
  destruct Hf as (item & <- & Hin). apply snapshot_item_kept in Hin.
  destruct Hin as [Hwalk Hk]. apply keep_item_inv in Hk.
  destruct Hk as (_ & Hname & Hparent & _).
  exists item. repeat split; auto.
  intros E. rewrite E, HF in Hparent. discriminate.
Qed.

Lemma C1_snapshot_skips_finished_parent_witness :
  ds_files (get_directory_state (new_organizer ["D"] "movie") fs_finished_folder)
  <> []
  /\ forall f,
       In f (ds_files
               (get_directory_state (new_organizer ["D"] "movie")
                  fs_finished_folder)) ->
       exists item,
         f = make_file_info item
         /\ In item (rglob_at ["D"] fs_finished_folder)
         /\ path_parent (fst item) <> ["D"; "F"]
         /\ fi_name f <> hash_filename.
Proof.
  split; [vm_compute; discriminate|].
  apply (C1_snapshot_skips_finished_parent
           (new_organizer ["D"] "movie") fs_finished_folder ["D"; "F"]).
  reflexivity.
Defined.

(** C1 as stated fails: [/D/F] holds a hash file, yet the snapshot of
    [/D] lists [/D/F/sub/a.mkv], which lies below [/D/F]. *)
Lemma C1_counterexample :
  is_dir ["D"; "F"] fs_finished_folder = true
  /\ is_file (["D"; "F"] ++ [hash_filename]) fs_finished_folder = true
  /\ List.map fi_path
       (ds_files
          (get_directory_state (new_organizer ["D"] "movie") fs_finished_folder))
     = ["/D/F/sub/a.mkv"]
  /\ ~ (forall item,
          In item (snapshot_items (new_organizer ["D"] "movie") fs_finished_folder) ->
          path_prefix ["D"; "F"] (fst item) = false).
Proof.
  repeat split; try reflexivity.
  intros H.
  specialize (H (["D"; "F"; "sub"; "a.mkv"], File true true ["x"%byte])).
  assert (Hin : In (["D"; "F"; "sub"; "a.mkv"], File true true ["x"%byte])
                   (snapshot_items (new_organizer ["D"] "movie") fs_finished_folder)).
  { vm_compute. left. reflexivity. }
  apply H in Hin. discriminate.
Qed.

(* ===================================================================== *)
(** * The organization loop *)
(* ===================================================================== *)

Section LoopFacts.

Variable search_tmdb : string -> string -> string.
Variable os_write : path -> node -> write_fault.
Variable agent : nat -> directory_state -> agent_run.

(** An agent run logs tool calls only. *)
Lemma run_agent_log a :
  forall fs e fs' log,
    run_agent search_tmdb os_write a fs = (e, fs', log) ->
    invocations log = 0 /\ scans log = 0.
Proof.
  induction a as [output|error|c k IH]; intros fs e fs' log; simpl.
  - intros [= _ _ <-]. auto.
  - intros [= _ _ <-]. auto.
  - destruct (exec_tool search_tmdb os_write c fs) as [message fs1].
    destruct (run_agent search_tmdb os_write (k message) fs1) as [[e2 fs2] log2] eqn:Hr.
    intros [= _ _ <-]. exact (IH _ _ _ _ _ Hr).
Qed.

(** What [processed_files] is after a pass, case by case. *)
Lemma organize_pass_processed i o fs :
  let state := get_directory_state o fs in
  processed_files (pass_self o (fst (organize_pass search_tmdb os_write agent i o fs)))
  = match ds_files state with
    | [] => processed_files o
    | first :: _ =>
        match fst (fst (run_agent search_tmdb os_write (agent i state) fs)) with
        | Raised _ => processed_files o
        | Returned output =>
            if mentions_completion output
            then add_processed (fi_path first) (processed_files o)
            else processed_files o
        end
    end.
Proof.
  intros state. unfold organize_pass. fold state.
  destruct (ds_files state) as [|first rest]; [reflexivity|].
  destruct (run_agent search_tmdb os_write (agent i state) fs) as [[[output|error] fs'] log];
    simpl; [|reflexivity].
  destruct (mentions_completion output); reflexivity.
Qed.

End LoopFacts.

(** C8. When the first snapshot is empty, the loop ends in [Done] after
    that one scan; the agent is not invoked, and neither the organizer
    nor the file system changes. *)
Theorem C8_empty_snapshot_done (search_tmdb : string -> string -> string)
    (os_write : path -> node -> write_fault)
    (agent : nat -> directory_state -> agent_run)
    (fuel : nat) (o : MediaOrganizer) (fs : node) :
  ds_files (get_directory_state o fs) = [] ->
  organize search_tmdb os_write agent (S fuel) o fs
  = {| run_end := Done; run_self := o; run_fs := fs;
       run_trace := [Scanned (get_directory_state o fs)] |}
  /\ invocations (run_trace (organize search_tmdb os_write agent (S fuel) o fs)) = 0
  /\ scans (run_trace (organize search_tmdb os_write agent (S fuel) o fs)) = 1.
Proof.
  intros Hempty. unfold organize. simpl. unfold organize_pass.
  rewrite Hempty. auto.
Qed.

Lemma C8_empty_snapshot_done_witness :
  run_end (organize tmdb_down disk_ok agent_fails 1 (new_organizer ["t"] "movie")
             fs_empty_target) = Done
  /\ invocations
       (run_trace (organize tmdb_down disk_ok agent_fails 1 (new_organizer ["t"] "movie")
                     fs_empty_target)) = 0.
Proof.
  destruct (C8_empty_snapshot_done tmdb_down disk_ok agent_fails 0
              (new_organizer ["t"] "movie") fs_empty_target) as (Hrun & Hinv & _).
  - reflexivity.
  - rewrite Hrun. split; [reflexivity|]. rewrite <- Hrun. exact Hinv.
Defined.

(** C9. When the snapshot of a pass is not empty and the agent's run for
    it ends in an exception, the loop ends in [Aborted] in that pass:
    the trace of the rest of the run is this one scan, this one
    invocation and the tool calls the agent made before failing;
    nothing is recorded in [processed_files]. *)
Theorem C9_agent_failure_aborts (search_tmdb : string -> string -> string)
    (os_write : path -> node -> write_fault)
    (agent : nat -> directory_state -> agent_run)
    (fuel i : nat) (o : MediaOrganizer) (fs fs' : node)
    (error : string) (log : list event) :
  ds_files (get_directory_state o fs) <> [] ->
  run_agent search_tmdb os_write (agent i (get_directory_state o fs)) fs
  = (Raised error, fs', log) ->
  organize_from search_tmdb os_write agent (S fuel) i o fs
  = {| run_end := Aborted; run_self := o; run_fs := fs';
       run_trace := Scanned (get_directory_state o fs)
                    :: Invoked (get_directory_state o fs) :: log |}
  /\ invocations (run_trace (organize_from search_tmdb os_write agent (S fuel) i o fs)) = 1
  /\ scans (run_trace (organize_from search_tmdb os_write agent (S fuel) i o fs)) = 1.
Proof.
  intros Hfiles Hrun.
  assert (E : organize_from search_tmdb os_write agent (S fuel) i o fs
              = {| run_end := Aborted; run_self := o; run_fs := fs';
                   run_trace := Scanned (get_directory_state o fs)
                                :: Invoked (get_directory_state o fs) :: log |}).
  { simpl. unfold organize_pass.
    destruct (ds_files (get_directory_state o fs)); [contradiction|].
    now rewrite Hrun. }
  rewrite E. destruct (run_agent_log _ _ _ _ _ _ _ Hrun) as [Hi Hs].
  unfold invocations, scans in *. simpl. rewrite Hi, Hs. auto.
Qed.

Lemma C9_agent_failure_aborts_witness :
  run_end (organize tmdb_down disk_ok agent_fails 7 (new_organizer ["t"] "movie")
             fs_two_files) = Aborted
  /\ invocations
       (run_trace (organize tmdb_down disk_ok agent_fails 7 (new_organizer ["t"] "movie")
                     fs_two_files)) = 1
  /\ scans
       (run_trace (organize tmdb_down disk_ok agent_fails 7 (new_organizer ["t"] "movie")
                     fs_two_files)) = 1.
Proof.
  destruct (C9_agent_failure_aborts tmdb_down disk_ok agent_fails 6 0
              (new_organizer ["t"] "movie") fs_two_files fs_two_files
              "connection reset"
              [ToolRan (SearchTmdb "a" "movie") "{}"]) as (Hrun & Hinv & Hscan).
  - vm_compute. discriminate.
  - reflexivity.
  - unfold organize. rewrite Hrun. repeat split; rewrite <- Hrun; assumption.
Defined.

(** C10. A pass adds at most one path to [processed_files]; when it
    adds one, it is the path of the first entry of the snapshot of that
    pass, whatever the agent did and reported. *)
Theorem C10_at_most_first_recorded (search_tmdb : string -> string -> string)
    (os_write : path -> node -> write_fault)
    (agent : nat -> directory_state -> agent_run)
    (i : nat) (o : MediaOrganizer) (fs : node) :
  let o' := pass_self o (fst (organize_pass search_tmdb os_write agent i o fs)) in
  (processed_files o' = processed_files o
   \/ exists first rest,
        ds_files (get_directory_state o fs) = first :: rest
        /\ processed_files o' = {[fi_path first]} ∪ processed_files o)
  /\ processed_files o ⊆ processed_files o'
  /\ size (processed_files o') <= S (size (processed_files o)).
Proof.
  intros o'. unfold o'. rewrite organize_pass_processed.
  destruct (ds_files (get_directory_state o fs)) as [|first rest].
  { repeat split; auto. }
  destruct (fst (fst (run_agent search_tmdb os_write
                        (agent i (get_directory_state o fs)) fs)))
    as [output|error].
  2:{ repeat split; auto. }
  destruct (mentions_completion output).
  2:{ repeat split; auto. }
  unfold add_processed. repeat split.
  - right. eauto.
  - set_solver.
  - rewrite size_union_alt, size_singleton.
    assert (Hsub : processed_files o ∖ {[fi_path first]} ⊆ processed_files o)
      by (apply subseteq_difference_l; reflexivity).
    apply subseteq_size in Hsub. lia.
Qed.

(** C2, as the code has it.  In a pass in which the agent returns, the
    path of the first entry of the snapshot is recorded in
    [processed_files] exactly when the agent's output mentions
    "marked as completed" (in any letter case), and nothing else is
    recorded, whatever tools the agent called; every recorded path is
    left out of the next snapshot. *)
Theorem C2_first_entry_recorded (search_tmdb : string -> string -> string)
    (os_write : path -> node -> write_fault)
    (agent : nat -> directory_state -> agent_run)
    (i : nat) (o : MediaOrganizer) (fs fs' : node)
    (first : file_info) (rest : list file_info)
    (output : option string) (log : list event) :
  ds_files (get_directory_state o fs) = first :: rest ->
  run_agent search_tmdb os_write (agent i (get_directory_state o fs)) fs
  = (Returned output, fs', log) ->
  exists o' tr,
    organize_pass search_tmdb os_write agent i o fs = (Again o' fs', tr)
    /\ processed_files o'
       = (if mentions_completion output
          then {[fi_path first]} ∪ processed_files o
          else processed_files o)
    /\ forall p, p ∈ processed_files o' ->
         ~ In p (List.map fi_path (ds_files (get_directory_state o' fs'))).
Proof.
  intros Hfiles Hrun. unfold organize_pass. rewrite Hfiles, Hrun.
  destruct (mentions_completion output); eexists; eexists;
    (split; [reflexivity|]); (split; [reflexivity|]);
    intros p Hp; now apply snapshot_excludes_processed.
Qed.

Lemma C2_first_entry_recorded_witness :
  exists o' fs' tr,
    organize_pass tmdb_down disk_ok agent_moves_second 0 (new_organizer ["t"] "movie")
      fs_two_files
    = (Again o' fs', tr)
    /\ "/t/a.mkv" ∈ processed_files o'
    /\ forall p, p ∈ processed_files o' ->
         ~ In p (List.map fi_path (ds_files (get_directory_state o' fs'))).
Proof.
  edestruct (C2_first_entry_recorded tmdb_down disk_ok agent_moves_second 0
               (new_organizer ["t"] "movie") fs_two_files)
    as (o' & tr & Hpass & Hrec & Hnext).
  - reflexivity.
  - reflexivity.
  - eexists o', _, tr. split; [exact Hpass|]. split; [|exact Hnext].
    rewrite Hrec.
    replace (mentions_completion (Some (mark_completed "/t/Film/b.mkv")))
      with true by (vm_compute; reflexivity).
    apply elem_of_union_l, elem_of_singleton. reflexivity.
Defined.

(** C2 as stated fails: the agent moved [/t/b.mkv] to [/t/Film/b.mkv]
    and called [mark_completed] on it, yet neither path is recorded; the
    recorded path is [/t/a.mkv], which the agent did not touch, and the
    next snapshot lists the file the agent handled. *)
Lemma C2_counterexample :
  let o := new_organizer ["t"] "movie" in
  let result := organize_pass tmdb_down disk_ok agent_moves_second 0 o fs_two_files in
  let o' := pass_self o (fst result) in
  In (ToolRan (MoveRenameFile ["t"; "b.mkv"] ["t"; "Film"; "b.mkv"])
        "Successfully moved /t/b.mkv to /t/Film/b.mkv") (snd result)
  /\ In (ToolRan (MarkCompleted "/t/Film/b.mkv")
           (mark_completed "/t/Film/b.mkv")) (snd result)
  /\ processed_files o' = {["/t/a.mkv"]}
  /\ ("/t/b.mkv" ∉ processed_files o')
  /\ ("/t/Film/b.mkv" ∉ processed_files o')
  /\ (exists fs', fst result = Again o' fs'
        /\ List.map fi_path (ds_files (get_directory_state o' fs'))
           = ["/t/Film/b.mkv"]).
Proof.
  intros o result o'.
  assert (E : processed_files o' = {["/t/a.mkv"]}) by (vm_compute; reflexivity).
  split; [vm_compute; tauto|].
  split; [vm_compute; tauto|].
  split; [exact E|].
  split; [rewrite E; intros H%elem_of_singleton; discriminate|].
  split; [rewrite E; intros H%elem_of_singleton; discriminate|].
  eexists. split; [reflexivity|]. vm_compute. reflexivity.
Qed.

(** C3, as the code has it.  [mark_completed] only returns its message:
    the call leaves the file system as it is and hands the agent the
    message, and it does not touch [processed_files], which is therefore
    the same after one call and after two.  A path becomes a member of
    [processed_files] through the [add] in the loop, and adding it a
    second time leaves the set, and so its size, as it was. *)
Theorem C3_mark_completed_only_reports
    (search_tmdb : string -> string -> string)
    (os_write : path -> node -> write_fault)
    (P : string) (k : string -> agent_run) (fs : node) (s : gset string) :
  exec_tool search_tmdb os_write (MarkCompleted P) fs = (mark_completed P, fs)
  /\ run_agent search_tmdb os_write (AgentCall (MarkCompleted P) k) fs
     = (let '(e, fs', log) := run_agent search_tmdb os_write (k (mark_completed P)) fs in
        (e, fs', ToolRan (MarkCompleted P) (mark_completed P) :: log))
  /\ P ∈ add_processed P s
  /\ add_processed P (add_processed P s) = add_processed P s
  /\ size (add_processed P (add_processed P s)) = size (add_processed P s).
Proof.
  assert (E : add_processed P (add_processed P s) = add_processed P s).
  { unfold add_processed. apply set_eq. intros x.
    rewrite !elem_of_union. tauto. }
  repeat split.
  - unfold add_processed. apply elem_of_union_l, elem_of_singleton. reflexivity.
  - exact E.
  - now rewrite E.
Qed.

(** C3 as stated fails: the agent calls [mark_completed] on [/t/b.mkv],
    and after the pass that path is not in [processed_files], which is
    still empty. *)
Lemma C3_counterexample :
  let o := new_organizer ["t"] "movie" in
  let result := organize_pass tmdb_down disk_ok agent_marks_quietly 0 o fs_two_files in
  let o' := pass_self o (fst result) in
  In (ToolRan (MarkCompleted "/t/b.mkv") (mark_completed "/t/b.mkv")) (snd result)
  /\ (exists fs', fst result = Again o' fs')
  /\ processed_files o' = ∅
  /\ ("/t/b.mkv" ∉ processed_files o').
Proof.
  intros o result o'.
  assert (E : processed_files o' = ∅) by reflexivity.
  split; [vm_compute; tauto|].
  split; [eexists; reflexivity|].
  split; [exact E|].
  rewrite E. apply not_elem_of_empty.
Qed.

(* ===================================================================== *)
(** * Further facts about the model *)
(* ===================================================================== *)

(** Reading in chunks of 4096 bytes feeds the hash the whole file. *)
Lemma read_chunks_concat size :
  forall fuel data,
    0 < size -> List.length data <= fuel ->
    List.concat (read_chunks fuel size data) = data.
Proof.
  induction fuel as [|fuel IH]; intros data Hsize Hlen.
  - destruct data; [reflexivity|simpl in Hlen; lia].
  - destruct data as [|b data]; [reflexivity|].
    cbn [read_chunks List.concat]. rewrite IH; [apply List.firstn_skipn|lia|].
    rewrite List.length_skipn. simpl in *. lia.
Qed.

Lemma md5_update_chunks chunks :
  forall h, List.fold_left md5_update chunks h = h ++ List.concat chunks.
Proof.
  induction chunks as [|c chunks IH]; intros h; simpl.
  - now rewrite List.app_nil_r.
  - rewrite IH. unfold md5_update. now rewrite <- List.app_assoc.
Qed.

Lemma file_md5_whole data : file_md5 data = MD5.hexdigest data.
Proof.
  unfold file_md5, md5_hexdigest, md5_new. rewrite md5_update_chunks. simpl.
  rewrite read_chunks_concat; [reflexivity|lia|lia].
Qed.

Lemma lower_app a b : lower (a +:+ b) = lower a +:+ lower b.
Proof. induction a as [|c a IH]; simpl; [reflexivity|now rewrite IH]. Qed.

Lemma contains_app_r needle a s :
  contains needle s = true -> contains needle (a +:+ s) = true.
Proof.
  intros H. induction a as [|c a IH]; [exact H|].
  change (contains needle (String c a +:+ s))
    with (if String.prefix needle (String c (a +:+ s)) then true
          else contains needle (a +:+ s)).
  rewrite IH. now destruct (String.prefix needle (String c (a +:+ s))).
Qed.

(** The message of [mark_completed] is one the loop takes for a
    completion, if the agent hands it on as its output. *)
Lemma mark_completed_mentions file_path :
  mentions_completion (Some (mark_completed file_path)) = true.
Proof.
  unfold mentions_completion, mark_completed, result_output.
  rewrite !lower_app. do 2 apply contains_app_r. reflexivity.
Qed.

(* ===================================================================== *)
(** * Directory listings: entries other than the one written *)
(* ===================================================================== *)

Lemma assoc_replace_entry_other k name v es :
  k <> name -> assoc k (replace_entry name v es) = assoc k es.
Proof.
  intros Hne. induction es as [|[k0 c] es IH]; simpl; [reflexivity|].
  destruct (String.eqb_spec k0 name) as [->|Hn]; simpl.
  - destruct (String.eqb_spec name k); [congruence|reflexivity].
  - now rewrite IH.
Qed.

Lemma assoc_snoc_other k name v es :
  k <> name -> assoc k (es ++ [(name, v)]) = assoc k es.
Proof.
  intros Hne. induction es as [|[k0 c] es IH]; simpl.
  - destruct (String.eqb_spec name k); [congruence|reflexivity].
  - now rewrite IH.
Qed.

Lemma assoc_put_entry_other k name v es :
  k <> name -> assoc k (put_entry name v es) = assoc k es.
Proof.
  intros Hne. unfold put_entry. destruct (assoc name es).
  - now apply assoc_replace_entry_other.
  - now apply assoc_snoc_other.
Qed.

Lemma assoc_remove_entry_other k name es :
  k <> name -> assoc k (remove_entry name es) = assoc k es.
Proof.
  intros Hne. induction es as [|[k0 c] es IH]; simpl; [reflexivity|].
  destruct (String.eqb_spec k0 name) as [->|Hn]; simpl.
  - destruct (String.eqb_spec name k); [congruence|reflexivity].
  - now rewrite IH.
Qed.

Lemma assoc_remove_entry_same name es :
  unique_names es = true -> assoc name (remove_entry name es) = None.
Proof.
  induction es as [|[k0 c] es IH]; simpl; [reflexivity|].
  destruct (assoc k0 es) eqn:Hk; [discriminate|]. intros Hu.
  destruct (String.eqb_spec k0 name) as [->|Hn]; simpl; [exact Hk|].
  destruct (String.eqb_spec k0 name); [contradiction|auto].
Qed.

(* ===================================================================== *)
(** * stat *)
(* ===================================================================== *)

Lemma stat_cons k q es :
  stat (k :: q) (Dir es)
  = match assoc k es with
    | Some c => stat q c
    | None => None
    end.
Proof. unfold stat. simpl. now destruct (assoc k es). Qed.

Lemma stat_under_file k q r w data : stat (k :: q) (File r w data) = None.
Proof. reflexivity. Qed.

Lemma stat_lookup_file p fs r w data :
  stat p fs = Some (IsFile r w data) <-> fs_lookup p fs = Some (File r w data).
Proof.
  unfold stat. destruct (fs_lookup p fs) as [[r0 w0 d0|es]|]; simpl;
    split; intros H; try discriminate; now injection H as -> -> ->.
Qed.

Lemma stat_is_dir p fs : stat p fs = Some IsDir <-> is_dir p fs = true.
Proof.
  unfold stat, is_dir. destruct (fs_lookup p fs) as [[r0 w0 d0|es]|]; simpl;
    split; intros H; try discriminate; reflexivity.
Qed.

Lemma stat_exists p fs : stat p fs = None <-> fs_exists p fs = false.
Proof.
  unfold stat, fs_exists. destruct (fs_lookup p fs); split; intros H;
    try discriminate; reflexivity.
Qed.

(** Writing a regular file where no directory stands changes what no
    other path names. *)
Lemma stat_fs_put_file dst r w data :
  forall q fs,
    stat dst fs <> Some IsDir ->
    q <> dst ->
    stat q (fs_put dst (File r w data) fs) = stat q fs.
Proof.
  induction dst as [|name rest IH]; intros q fs Hold Hq.
  - simpl. destruct fs as [r0 w0 d0|es]; [|now contradiction Hold].
    destruct q; [contradiction|reflexivity].
  - simpl. destruct fs as [r0 w0 d0|es]; [reflexivity|].
    rewrite stat_cons in Hold.
    destruct (assoc name es) as [c|] eqn:Hname.
    + destruct q as [|k q']; [reflexivity|]. rewrite !stat_cons.
      destruct (String.eqb_spec k name) as [->|Hk].
      * erewrite assoc_replace_entry by eauto. rewrite Hname.
        apply IH; [exact Hold|congruence].
      * now rewrite assoc_replace_entry_other.
    + destruct rest as [|k2 rest]; [|reflexivity].
      destruct q as [|k q']; [reflexivity|]. rewrite !stat_cons.
      destruct (String.eqb_spec k name) as [->|Hk].
      * rewrite assoc_snoc_fresh, Hname by exact Hname.
        destruct q'; [contradiction|reflexivity].
      * now rewrite assoc_snoc_other.
Qed.

(** What was written is what the path names afterwards, when its parent
    is a directory. *)
Lemma fs_lookup_put_child folder name v fs :
  is_dir folder fs = true ->
  fs_lookup (folder ++ [name]) (fs_put (folder ++ [name]) v fs) = Some v.
Proof.
  intros Hd. destruct (is_dir_lookup _ _ Hd) as [es Hes].
  rewrite (fs_lookup_child _ _ _ _ (fs_put_child _ name v _ _ Hes)).
  apply assoc_put_entry.
Qed.

(** What a write under a fault leaves: nothing changed, or the file at
    [p] holding all of [data] (no exception) or the bytes that got
    through before the device failed. *)
Lemma write_file_effect fault p data fs :
  snd (write_file fault p data fs) = fs
  /\ fst (write_file fault p data fs) <> None
  \/ exists r content,
       stat p fs <> Some IsDir
       /\ snd (write_file fault p data fs)
          = fs_put p (File r true content) fs
       /\ (fst (write_file fault p data fs) = None /\ content = data
           \/ exists n,
                fault = FailsAfter n
                /\ n < List.length data
                /\ fst (write_file fault p data fs) = Some device_full
                /\ content = List.firstn n data).
Proof.
  assert (Hbytes : forall r,
             exists content,
               snd (write_bytes fault p r true data fs)
               = fs_put p (File r true content) fs
               /\ (fst (write_bytes fault p r true data fs) = None
                   /\ content = data
                   \/ exists n,
                        fault = FailsAfter n
                        /\ n < List.length data
                        /\ fst (write_bytes fault p r true data fs)
                           = Some device_full
                        /\ content = List.firstn n data)).
  { intros r. unfold write_bytes.
    destruct fault as [| |n]; try (exists data; split; [reflexivity|now left]).
    destruct (Nat.ltb_spec n (List.length data)).
    - exists (List.firstn n data). split; [reflexivity|]. right. exists n. auto.
    - exists data. split; [reflexivity|now left]. }
  unfold write_file.
  destruct (fs_lookup p fs) as [[r w d0|es]|] eqn:Hl.
  - destruct w; [|left; split; [reflexivity|discriminate]].
    right.
    assert (Hst : stat p fs <> Some IsDir) by (unfold stat; rewrite Hl; discriminate).
    destruct (Hbytes r) as (content & Hs & Hc).
    exists r, content. auto.
  - left. split; [reflexivity|discriminate].
  - destruct (is_dir (path_parent p) fs) eqn:Hpar;
      [|left; split; [reflexivity|discriminate]].
    assert (Hst : stat p fs <> Some IsDir) by (unfold stat; rewrite Hl; discriminate).
    destruct (Hbytes true) as (content & Hs & Hc).
    destruct fault as [| |n]; [|left; split; [reflexivity|discriminate]|];
      right; exists true, content; auto.
Qed.

Lemma manifest_content_put folder r w content fs :
  is_dir folder fs = true ->
  manifest_content folder
    (fs_put (folder ++ [".media_hashes.json"]) (File r w content) fs)
  = Some content.
Proof.
  intros Hd. unfold manifest_content. now rewrite fs_lookup_put_child.
Qed.

(** The mapping of a folder does not depend on its hash file. *)
Lemma folder_hashes_after_write folder fs fs' es r w data :
  fs_lookup folder fs = Some (Dir es) ->
  match assoc ".media_hashes.json" es with
  | Some (Dir _) => False
  | _ => True
  end ->
  fs_lookup folder fs'
  = Some (Dir (put_entry ".media_hashes.json" (File r w data) es)) ->
  folder_hashes folder fs' = folder_hashes folder fs.
Proof.
  intros Hes Hold Hes'. unfold folder_hashes, rglob_at. rewrite Hes, Hes'.
  rewrite hash_loop_filter, rglob_put_hash_file by exact Hold.
  now rewrite <- hash_loop_filter.
Qed.

(** A run that reports success: what it found and what it left. *)
Lemma calculate_folder_hashes_success fault folder fs :
  fst (calculate_folder_hashes fault folder fs) = HashWritten ->
  exists es file_hashes r,
    fs_lookup folder fs = Some (Dir es)
    /\ folder_hashes folder fs = Ok file_hashes
    /\ match assoc ".media_hashes.json" es with
       | Some (Dir _) => False
       | _ => True
       end
    /\ snd (calculate_folder_hashes fault folder fs)
       = fs_put (folder ++ [".media_hashes.json"])
           (File r true (list_byte_of_string (json_dumps_indent2 file_hashes)))
           fs.
Proof.
  unfold calculate_folder_hashes.
  destruct (is_dir folder fs) eqn:Hd; cbn [negb]; [|discriminate].
  destruct (is_dir_lookup _ _ Hd) as [es Hes].
  destruct (folder_hashes folder fs) as [d|e]; [|discriminate].
  pose proof (write_file_effect fault (folder ++ [".media_hashes.json"])
                (list_byte_of_string (json_dumps_indent2 d)) fs) as Heff.
  destruct (write_file fault (folder ++ [".media_hashes.json"])
              (list_byte_of_string (json_dumps_indent2 d)) fs) as [[e|] fs1];
    cbn [fst snd] in *; [discriminate|].
  intros _.
  destruct Heff as [[_ Hne]|(r & content & Hst & Hfs & Hc)];
    [now contradiction Hne|].
  destruct Hc as [[_ ->]|(n & _ & _ & Hsome & _)]; [|discriminate].
  exists es, d, r. split; [exact Hes|]. split; [reflexivity|].
  split; [|exact Hfs].
  unfold stat in Hst. rewrite (fs_lookup_child _ _ _ _ Hes) in Hst.
  destruct (assoc ".media_hashes.json" es) as [[? ? ?|?]|]; auto.
Qed.

(** On success the folder holds a hash file with the rendered mapping. *)
Lemma calculate_folder_hashes_written fault folder fs fs1 :
  calculate_folder_hashes fault folder fs = (HashWritten, fs1) ->
  exists file_hashes,
    folder_hashes folder fs = Ok file_hashes
    /\ manifest_content folder fs1
       = Some (list_byte_of_string (json_dumps_indent2 file_hashes)).
Proof.
  intros Hc.
  destruct (calculate_folder_hashes_success fault folder fs)
    as (es & d & r & Hes & Hd & _ & Hfs).
  { now rewrite Hc. }
  rewrite Hc in Hfs. cbn [snd] in Hfs. subst fs1.
  exists d. split; [exact Hd|].
  apply manifest_content_put. unfold is_dir. now rewrite Hes.
Qed.


(** Unlinking a path changes what no path outside it names. *)
Lemma stat_fs_remove_other src :
  forall q fs,
    path_prefix src q = false ->
    stat q (fs_remove src fs) = stat q fs.
Proof.
  induction src as [|name rest IH]; intros q fs Hq; [discriminate|].
  simpl. destruct fs as [r0 w0 d0|es]; [reflexivity|].
  destruct q as [|k q']; [now destruct rest; [|destruct (assoc name es)]|].
  simpl in Hq. destruct rest as [|k2 rest].
  - rewrite !stat_cons. destruct (String.eqb_spec name k) as [->|Hk].
    + destruct q'; discriminate.
    + rewrite assoc_remove_entry_other; [reflexivity|congruence].
  - destruct (assoc name es) as [c|] eqn:Hname; [|reflexivity].
    rewrite !stat_cons. destruct (String.eqb_spec name k) as [->|Hk].
    + erewrite assoc_replace_entry by eauto. rewrite Hname. apply IH. exact Hq.
    + rewrite assoc_replace_entry_other; [reflexivity|congruence].
Qed.

(** An unlinked path names nothing, in a well-formed tree. *)
Lemma stat_fs_remove_same src :
  forall fs,
    src <> [] -> well_formed fs = true ->
    stat src (fs_remove src fs) = None.
Proof.
  induction src as [|name rest IH]; intros fs Hne Hwf; [contradiction|].
  simpl. destruct fs as [r0 w0 d0|es]; [reflexivity|].
  assert (Hu : unique_names es = true).
  { simpl in Hwf. now apply andb_prop in Hwf. }
  destruct rest as [|k2 rest].
  - rewrite stat_cons. now rewrite assoc_remove_entry_same.
  - destruct (assoc name es) as [c|] eqn:Hname.
    + rewrite stat_cons. erewrite assoc_replace_entry by eauto.
      apply IH; [discriminate|].
      eapply well_formed_entry; eauto using assoc_In.
    + rewrite stat_cons. now rewrite Hname.
Qed.

(* ===================================================================== *)
(** * The digest is 32 hexadecimal characters *)
(* ===================================================================== *)

Lemma le_bytes_length n x : List.length (MD5.le_bytes n x) = n.
Proof. revert x. induction n as [|n IH]; intros x; simpl; auto. Qed.

Lemma digest_length msg : List.length (MD5.digest msg) = 16.
Proof.
  unfold MD5.digest.
  destruct (MD5.blocks _ MD5.init _) as [[[a b] c] d].
  rewrite !List.length_app, !le_bytes_length. reflexivity.
Qed.

Lemma string_length_app a b :
  String.length (a +:+ b) = String.length a + String.length b.
Proof. induction a as [|c a IH]; simpl; [reflexivity|now rewrite IH]. Qed.

Lemma concat_hex_length bs :
  String.length (String.concat EmptyString (List.map MD5.hex_byte bs))
  = 2 * List.length bs.
Proof.
  induction bs as [|b bs IH]; [reflexivity|].
  destruct bs as [|b' bs]; [reflexivity|].
  change (String.concat EmptyString (List.map MD5.hex_byte (b :: b' :: bs)))
    with (MD5.hex_byte b +:+ EmptyString
          +:+ String.concat EmptyString (List.map MD5.hex_byte (b' :: bs))).
  rewrite !string_length_app, IH. simpl. lia.
Qed.

Lemma hexdigest_length msg : String.length (MD5.hexdigest msg) = 32.
Proof. unfold MD5.hexdigest. now rewrite concat_hex_length, digest_length. Qed.

(* ===================================================================== *)
(** * The mapping the hashing loop builds *)
(* ===================================================================== *)

Lemma dict_get_In k v d : dict_get k d = Some v -> In (k, v) d.
Proof.
  induction d as [|[k0 v0] d IH]; simpl; [discriminate|].
  destruct (String.eqb_spec k0 k) as [->|Hne].
  - intros [= ->]. now left.
  - auto.
Qed.

Lemma dict_get_set_same k v d : dict_get k (dict_set k v d) = Some v.
Proof.
  induction d as [|[k0 v0] d IH]; simpl.
  - now rewrite String.eqb_refl.
  - destruct (String.eqb k0 k) eqn:E; simpl; now rewrite E.
Qed.

Lemma dict_get_set_other k k' v d :
  k' <> k -> dict_get k' (dict_set k v d) = dict_get k' d.
Proof.
  intros Hne. induction d as [|[k0 v0] d IH]; simpl.
  - destruct (String.eqb_spec k k'); [congruence|reflexivity].
  - destruct (String.eqb_spec k0 k) as [->|Hk]; simpl.
    + destruct (String.eqb_spec k k'); [congruence|reflexivity].
    + now rewrite IH.
Qed.

Lemma dict_set_In k v d k' v' :
  In (k', v') (dict_set k v d) -> (k' = k /\ v' = v) \/ In (k', v') d.
Proof.
  induction d as [|[k0 v0] d IH]; simpl.
  - intros [[= <- <-]|[]]. now left.
  - destruct (String.eqb_spec k0 k) as [->|Hk]; simpl.
    + intros [[= <- <-]|H]; auto.
    + intros [H|H]; auto. destruct (IH H); auto.
Qed.

(** A key once set stays set. *)
Lemma hash_loop_keeps_keys folder items :
  forall d d' k,
    hash_loop folder items d = Ok d' ->
    dict_get k d <> None -> dict_get k d' <> None.
Proof.
  induction items as [|[p n] items IH]; intros d d' k; simpl.
  - now intros [= <-].
  - destruct n as [r w data|es]; [|apply IH].
    destruct (String.eqb (path_name p) ".media_hashes.json"); [apply IH|].
    destruct r; [|discriminate].
    intros H Hk. eapply IH; [exact H|].
    destruct (String.eqb_spec k (rel_str (relative_to folder p))) as [->|Hne].
    + now rewrite dict_get_set_same.
    + now rewrite dict_get_set_other.
Qed.

(** Every hashable item of the walk gets a key. *)
Lemma hash_loop_complete folder items :
  forall d d' p r w data,
    hash_loop folder items d = Ok d' ->
    In (p, File r w data) items ->
    path_name p <> hash_filename ->
    dict_get (rel_str (relative_to folder p)) d' <> None.
Proof.
  induction items as [|[q n] items IH]; intros d d' p r w data Hl Hin Hname;
    [destruct Hin|].
  simpl in Hl. destruct Hin as [[= -> ->]|Hin].
  - destruct (String.eqb_spec (path_name p) ".media_hashes.json") as [E|E];
      [contradiction|].
    destruct r; [|discriminate].
    eapply hash_loop_keeps_keys; [exact Hl|].
    now rewrite dict_get_set_same.
  - destruct n as [r0 w0 d0|es]; [|eauto].
    destruct (String.eqb (path_name q) ".media_hashes.json"); [eauto|].
    destruct r0; [eauto|discriminate].
Qed.

(** Every entry was there before the loop or holds the digest of a
    readable hashable item under its rendered relative path. *)
Lemma hash_loop_entries folder items :
  forall d d' k v,
    hash_loop folder items d = Ok d' ->
    In (k, v) d' ->
    In (k, v) d
    \/ exists p w data,
         In (p, File true w data) items
         /\ path_name p <> hash_filename
         /\ k = rel_str (relative_to folder p)
         /\ v = file_md5 data.
Proof.
  induction items as [|[p n] items IH]; intros d d' k v; simpl.
  - intros [= <-]. auto.
  - destruct n as [r w data|es]; [|].
    + destruct (String.eqb_spec (path_name p) ".media_hashes.json") as [E|E].
      * intros H Hin. destruct (IH _ _ _ _ H Hin) as [|(q & w' & dat & ? & ?)]; auto.
        right. exists q, w', dat. auto.
      * destruct r; [|discriminate]. intros H Hin.
        destruct (IH _ _ _ _ H Hin) as [Hd|(q & w' & dat & ? & ?)].
        -- apply dict_set_In in Hd. destruct Hd as [[-> ->]|Hd]; auto.
           right. exists p, w, data. auto.
        -- right. exists q, w', dat. auto.
    + intros H Hin. destruct (IH _ _ _ _ H Hin) as [|(q & w' & dat & ? & ?)]; auto.
      right. exists q, w', dat. auto.
Qed.

(** The loop completes exactly when every hashable item may be read. *)
Lemma hash_loop_readable folder items :
  forall d,
    (forall p r w data,
        In (p, File r w data) items -> path_name p <> hash_filename -> r = true) ->
    exists d', hash_loop folder items d = Ok d'.
Proof.
  induction items as [|[q n] items IH]; intros d Hall; simpl; [eauto|].
  assert (Hrest : forall p r w data,
             In (p, File r w data) items -> path_name p <> hash_filename ->
             r = true).
  { intros p r0 w0 d0 Hin Hn. apply (Hall p r0 w0 d0); [right; exact Hin|exact Hn]. }
  destruct n as [r w data|es]; [|now apply IH].
  destruct (String.eqb_spec (path_name q) ".media_hashes.json") as [E|E];
    [now apply IH|].
  rewrite (Hall q r w data); [now apply IH|now left|exact E].
Qed.

(* ===================================================================== *)
(** * Rendering a path loses nothing *)
(* ===================================================================== *)

Lemma append_nil_l s : EmptyString +:+ s = s.
Proof. reflexivity. Qed.

Lemma append_cons c a b : String c a +:+ b = String c (a +:+ b).
Proof. reflexivity. Qed.

Lemma app_slash_inj x :
  forall y s t,
    has_slash x = false -> has_slash y = false ->
    x +:+ "/" +:+ s = y +:+ "/" +:+ t -> x = y /\ s = t.
Proof.
  induction x as [|c x IH]; intros y s t Hx Hy; destruct y as [|c' y];
    rewrite ?append_cons, ?append_nil_l; intros H.
  - injection H as ->. auto.
  - injection H as <- _. simpl in Hy. discriminate.
  - injection H as -> _. simpl in Hx. discriminate.
  - injection H as -> H. simpl in Hx, Hy.
    apply orb_false_elim in Hx. apply orb_false_elim in Hy.
    destruct (IH y s t) as [-> ->]; [tauto|tauto|exact H|auto].
Qed.

Lemma valid_name_inv x :
  valid_name x = true -> x <> EmptyString /\ has_slash x = false.
Proof.
  unfold valid_name. intros [H1 H2]%andb_prop.
  apply negb_true_iff in H1, H2. split; [|exact H2].
  now apply String.eqb_neq.
Qed.

Lemma join_slash_inj a :
  forall b,
    List.forallb valid_name a = true -> List.forallb valid_name b = true ->
    join "/" a = join "/" b -> a = b.
Proof.
  induction a as [|x a IH]; intros b Ha Hb Heq.
  - destruct b as [|y [|y2 b]]; [reflexivity| |]; simpl in Hb;
      apply andb_prop in Hb; destruct Hb as [Hy _];
      apply valid_name_inv in Hy; destruct Hy as [Hy _].
    + simpl in Heq. congruence.
    + change (join "/" (y :: y2 :: b)) with (y +:+ "/" +:+ join "/" (y2 :: b)) in Heq.
      destruct y; [congruence|discriminate].
  - simpl in Ha. apply andb_prop in Ha. destruct Ha as [Hx Ha].
    pose proof (valid_name_inv _ Hx) as [Hx0 Hxs].
    destruct b as [|y b].
    + destruct a as [|x2 a]; simpl in Heq; [congruence|].
      destruct x; [congruence|discriminate].
    + simpl in Hb. apply andb_prop in Hb. destruct Hb as [Hy Hb].
      pose proof (valid_name_inv _ Hy) as [Hy0 Hys].
      destruct a as [|x2 a], b as [|y2 b].
      * simpl in Heq. now subst.
      * change (join "/" (y :: y2 :: b)) with (y +:+ "/" +:+ join "/" (y2 :: b)) in Heq.
        change (join "/" [x]) with x in Heq.
        rewrite Heq, !has_slash_app in Hxs. simpl in Hxs.
        rewrite orb_true_r in Hxs. discriminate.
      * change (join "/" (x :: x2 :: a)) with (x +:+ "/" +:+ join "/" (x2 :: a)) in Heq.
        change (join "/" [y]) with y in Heq.
        rewrite <- Heq, !has_slash_app in Hys. simpl in Hys.
        rewrite orb_true_r in Hys. discriminate.
      * change (join "/" (x :: x2 :: a)) with (x +:+ "/" +:+ join "/" (x2 :: a)) in Heq.
        change (join "/" (y :: y2 :: b)) with (y +:+ "/" +:+ join "/" (y2 :: b)) in Heq.
        destruct (app_slash_inj _ _ _ _ Hxs Hys Heq) as [-> Hrest].
        f_equal. now apply IH.
Qed.

Lemma valid_names_lookup p :
  forall fs n,
    valid_names fs = true -> fs_lookup p fs = Some n ->
    List.forallb valid_name p = true /\ valid_names n = true.
Proof.
  induction p as [|k p IH]; intros fs n Hv; simpl.
  - intros [= <-]. auto.
  - destruct fs as [r w d|es]; [discriminate|].
    destruct (assoc k es) as [c|] eqn:Hk; [|discriminate].
    apply assoc_In in Hk. simpl in Hv. rewrite List.forallb_forall in Hv.
    apply Hv in Hk. simpl in Hk. apply andb_prop in Hk. destruct Hk as [Hk Hc].
    intros Hl. destruct (IH _ _ Hc Hl) as [Hp Hn]. now rewrite Hk, Hp.
Qed.

(* ===================================================================== *)
(** * More about calculate_folder_hashes *)
(* ===================================================================== *)

(** X1. In a well-formed file system with valid names, when the hashing
    loop completes, the mapping sends the relative path of every regular
    file below the folder that is not called like the hash file to the
    MD5 hex digest of that file's whole content. *)
Theorem folder_hashes_of_every_file (folder rel : path) (fs : node)
    (file_hashes : dict) (r w : bool) (data : list byte) :
  well_formed fs = true ->
  valid_names fs = true ->
  folder_hashes folder fs = Ok file_hashes ->
  rel <> [] ->
  fs_lookup (folder ++ rel) fs = Some (File r w data) ->
  path_name rel <> hash_filename ->
  dict_get (rel_str rel) file_hashes = Some (MD5.hexdigest data).
Proof.
  intros Hwf Hval Hh Hrel Hl Hname. unfold folder_hashes in Hh.
  pose proof (lookup_rglob_at _ _ _ _ Hrel Hl) as Hin.
  assert (Hname' : path_name (folder ++ rel) <> hash_filename)
    by now rewrite path_name_app.
  pose proof (hash_loop_complete _ _ _ _ _ _ _ _ Hh Hin Hname') as Hkey.
  rewrite relative_to_app in Hkey.
  destruct (dict_get (rel_str rel) file_hashes) as [v|] eqn:Hv; [|contradiction].
  f_equal. apply dict_get_In in Hv.
  destruct (hash_loop_entries _ _ _ _ _ _ Hh Hv)
    as [[]|(p & w' & data' & Hin' & _ & Hk & ->)].
  destruct (rglob_at_lookup _ _ _ _ Hwf Hin') as (rel' & Hrel' & -> & Hl').
  rewrite relative_to_app in Hk.
  destruct (valid_names_lookup _ _ _ Hval Hl) as [Hv1 _].
  destruct (valid_names_lookup _ _ _ Hval Hl') as [Hv2 _].
  rewrite List.forallb_app in Hv1, Hv2.
  apply andb_prop in Hv1, Hv2. destruct Hv1 as [_ Hv1], Hv2 as [_ Hv2].
  assert (rel = rel').
  { apply join_slash_inj; auto.
    destruct rel, rel'; try contradiction. exact Hk. }
  subst rel'. rewrite Hl in Hl'. injection Hl' as _ _ <-.
  apply file_md5_whole.
Qed.

Lemma folder_hashes_of_every_file_witness :
  exists file_hashes,
    folder_hashes ["D"; "F"] fs_finished_folder = Ok file_hashes
    /\ dict_get "sub/a.mkv" file_hashes
       = Some (MD5.hexdigest ["x"%byte]).
Proof.
  eexists. split; [vm_compute; reflexivity|].
  apply (folder_hashes_of_every_file ["D"; "F"] ["sub"; "a.mkv"]
           fs_finished_folder _ true true ["x"%byte]);
    try reflexivity; discriminate.
Defined.

(** X2. In a well-formed file system, every entry of the mapping the
    hashing loop builds holds, under the rendered relative path of a
    readable regular file below the folder, the MD5 hex digest of that
    file's whole content, 32 characters long. *)
Theorem folder_hashes_entries (folder : path) (fs : node)
    (file_hashes : dict) (k v : string) :
  well_formed fs = true ->
  folder_hashes folder fs = Ok file_hashes ->
  dict_get k file_hashes = Some v ->
  exists rel w data,
    rel <> []
    /\ k = rel_str rel
    /\ fs_lookup (folder ++ rel) fs = Some (File true w data)
    /\ v = MD5.hexdigest data
    /\ String.length v = 32.
Proof.
  intros Hwf Hh Hv. apply dict_get_In in Hv. unfold folder_hashes in Hh.
  destruct (hash_loop_entries _ _ _ _ _ _ Hh Hv)
    as [[]|(p & w & data & Hin & _ & -> & ->)].
  destruct (rglob_at_lookup _ _ _ _ Hwf Hin) as (rel & Hrel & -> & Hl).
  exists rel, w, data. rewrite relative_to_app, file_md5_whole.
  repeat split; auto. apply hexdigest_length.
Qed.

Lemma folder_hashes_entries_witness :
  exists rel w data,
    rel <> []
    /\ "b.mkv" = rel_str rel
    /\ fs_lookup (["t"] ++ rel) fs_two_files = Some (File true w data)
    /\ "92eb5ffee6ae2fec3ad71c777531578f" = MD5.hexdigest data
    /\ String.length "92eb5ffee6ae2fec3ad71c777531578f" = 32.
Proof.
  eapply (folder_hashes_entries ["t"] fs_two_files).
  - reflexivity.
  - vm_compute. reflexivity.
  - vm_compute. reflexivity.
Defined.

(** X4. Whatever it reports, [calculate_folder_hashes] changes what no
    path other than the folder's hash file names: every other regular
    file keeps its bytes and permissions, and no other entry appears or
    disappears. *)
Theorem hashing_touches_only_hash_file (fault : write_fault)
    (folder q : path) (fs : node) :
  q <> folder ++ [hash_filename] ->
  stat q (snd (calculate_folder_hashes fault folder fs)) = stat q fs.
Proof.
  intros Hq. unfold calculate_folder_hashes.
  destruct (is_dir folder fs) eqn:Hd; simpl; [|reflexivity].
  destruct (folder_hashes folder fs) as [d|e]; simpl; [|reflexivity].
  pose proof (write_file_effect fault (folder ++ [".media_hashes.json"])
                (list_byte_of_string (json_dumps_indent2 d)) fs) as Heff.
  destruct (write_file fault (folder ++ [".media_hashes.json"])
              (list_byte_of_string (json_dumps_indent2 d)) fs) as [e fs1].
  cbn [fst snd] in Heff.
  assert (Hfs1 : stat q fs1 = stat q fs).
  { destruct Heff as [[-> _]|(r & content & Hst & -> & _)]; [reflexivity|].
    now apply stat_fs_put_file. }
  destruct e; exact Hfs1.
Qed.

Lemma hashing_touches_only_hash_file_witness :
  stat ["t"; "a.mkv"]
    (snd (calculate_folder_hashes (FailsAfter 5) ["t"] fs_two_files))
  = Some (IsFile true true ["a"%byte]).
Proof.
  rewrite (hashing_touches_only_hash_file (FailsAfter 5) ["t"] ["t"; "a.mkv"]
             fs_two_files).
  - reflexivity.
  - discriminate.
Defined.



(* ===================================================================== *)
(** * More about get_directory_state *)
(* ===================================================================== *)

Lemma keep_item_intro o fs p r w data :
  path_name p <> hash_filename ->
  fs_exists (path_parent p ++ [hash_filename]) fs = false ->
  path_str p ∉ processed_files o ->
  keep_item o fs (p, File r w data) = true.
Proof.
  intros Hname Hparent Hproc. unfold keep_item. simpl.
  destruct (String.eqb_spec (path_name p) hash_filename); [contradiction|].
  rewrite Hparent. apply negb_true_iff, bool_decide_eq_false. exact Hproc.
Qed.

(** X6. In a well-formed file system the snapshot lists exactly the
    regular files strictly below the target directory that are not
    called like the hash file, have no hash file beside them and whose
    rendered path is not in [processed_files]; each is listed with its
    rendered path, its name, its size in bytes and its rendered parent. *)
Theorem snapshot_lists_exactly (o : MediaOrganizer) (fs : node) (f : file_info) :
  well_formed fs = true ->
  (In f (ds_files (get_directory_state o fs))
   <->
   exists rel r w data,
     let p := target_directory o ++ rel in
     rel <> []
     /\ fs_lookup p fs = Some (File r w data)
     /\ path_name p <> hash_filename
     /\ fs_exists (path_parent p ++ [hash_filename]) fs = false
     /\ (path_str p ∉ processed_files o)
     /\ f = {| fi_path := path_str p;
               fi_name := path_name p;
               fi_size := List.length data;
               fi_parent := path_str (path_parent p) |}).
Proof.
  intros Hwf. simpl. rewrite List.in_map_iff. split.
  - intros ([p n] & <- & Hin). apply snapshot_item_kept in Hin.
    destruct Hin as [Hwalk Hk]. apply keep_item_inv in Hk.
    destruct Hk as ((r & w & data & Hn) & Hname & Hparent & Hproc).
    simpl in *. subst n.
    destruct (rglob_at_lookup _ _ _ _ Hwf Hwalk) as (rel & Hrel & -> & Hl).
    exists rel, r, w, data. simpl. auto 10.
  - intros (rel & r & w & data & Hrel & Hl & Hname & Hparent & Hproc & ->).
    exists (target_directory o ++ rel, File r w data). split; [reflexivity|].
    unfold snapshot_items. apply List.filter_In. split.
    + now apply lookup_rglob_at.
    + now apply keep_item_intro.
Qed.

Lemma snapshot_lists_exactly_witness :
  In {| fi_path := "/t/b.mkv"; fi_name := "b.mkv"; fi_size := 1;
        fi_parent := "/t" |}
     (ds_files (get_directory_state (new_organizer ["t"] "movie") fs_two_files)).
Proof.
  apply (proj2 (snapshot_lists_exactly (new_organizer ["t"] "movie")
                  fs_two_files _ eq_refl)).
  exists ["b.mkv"], true, true, ["b"%byte]. simpl.
  split; [discriminate|]. split; [reflexivity|]. split; [discriminate|].
  split; [reflexivity|]. split; [apply not_elem_of_empty|reflexivity].
Defined.

(* ===================================================================== *)
(** * More about organize *)
(* ===================================================================== *)

Lemma invocations_app a b : invocations (a ++ b) = invocations a + invocations b.
Proof. unfold invocations. now rewrite List.filter_app, List.length_app. Qed.

Lemma scans_app a b : scans (a ++ b) = scans a + scans b.
Proof. unfold scans. now rewrite List.filter_app, List.length_app. Qed.

Lemma size_add_processed p (s : gset string) :
  size (add_processed p s) <= S (size s).
Proof.
  unfold add_processed. rewrite size_union_alt, size_singleton.
  assert (Hsub : s ∖ {[p]} ⊆ s) by (apply subseteq_difference_l; reflexivity).
  apply subseteq_size in Hsub. lia.
Qed.

Lemma add_processed_subseteq p (s : gset string) : s ⊆ add_processed p s.
Proof. unfold add_processed. apply union_subseteq_r. Qed.

Section RunFacts.

Variable search_tmdb : string -> string -> string.
Variable os_write : path -> node -> write_fault.
Variable agent : nat -> directory_state -> agent_run.

(** What one pass does to the organizer and adds to the trace. *)
Lemma organize_pass_cases i o fs :
  let state := get_directory_state o fs in
  (ds_files state = []
   /\ organize_pass search_tmdb os_write agent i o fs = (Break Done fs, [Scanned state]))
  \/ (exists fs' tr,
        ds_files state <> []
        /\ organize_pass search_tmdb os_write agent i o fs = (Break Aborted fs', tr)
        /\ invocations tr = 1 /\ scans tr = 1)
  \/ (exists o' fs' tr,
        ds_files state <> []
        /\ organize_pass search_tmdb os_write agent i o fs = (Again o' fs', tr)
        /\ invocations tr = 1 /\ scans tr = 1
        /\ target_directory o' = target_directory o
        /\ media_type o' = media_type o
        /\ processed_files o ⊆ processed_files o'
        /\ size (processed_files o') <= S (size (processed_files o))).
Proof.
  intros state. unfold organize_pass. fold state.
  destruct (ds_files state) as [|first rest] eqn:Hfiles; [left; auto|right].
  destruct (run_agent search_tmdb os_write (agent i state) fs) as [[e fs'] log] eqn:Hrun.
  destruct (run_agent_log _ _ _ _ _ _ _ Hrun) as [Hi Hs].
  destruct e as [output|error].
  - right. destruct (mentions_completion output).
    + eexists _, fs', _. split; [discriminate|]. split; [reflexivity|].
      change (Scanned state :: Invoked state :: log ++ [Recorded (fi_path first)])
        with ([Scanned state; Invoked state] ++ log ++ [Recorded (fi_path first)]).
      rewrite !invocations_app, !scans_app, Hi, Hs.
      split; [reflexivity|]. split; [reflexivity|].
      split; [reflexivity|]. split; [reflexivity|].
      simpl. split; [apply add_processed_subseteq|apply size_add_processed].
    + eexists o, fs', _. split; [discriminate|]. split; [reflexivity|].
      change (Scanned state :: Invoked state :: log)
        with ([Scanned state; Invoked state] ++ log).
      rewrite !invocations_app, !scans_app, Hi, Hs.
      split; [reflexivity|]. split; [reflexivity|].
      split; [reflexivity|]. split; [reflexivity|].
      split; [reflexivity|lia].
  - left. eexists fs', _. split; [discriminate|]. split; [reflexivity|].
    change (Scanned state :: Invoked state :: log)
      with ([Scanned state; Invoked state] ++ log).
    rewrite !invocations_app, !scans_app, Hi, Hs. auto.
Qed.

(** What holds of every run, however long. *)
Lemma organize_from_invariant fuel :
  forall i o fs,
    let r := organize_from search_tmdb os_write agent fuel i o fs in
    target_directory (run_self r) = target_directory o
    /\ media_type (run_self r) = media_type o
    /\ processed_files o ⊆ processed_files (run_self r)
    /\ size (processed_files (run_self r))
       <= size (processed_files o) + invocations (run_trace r)
    /\ scans (run_trace r)
       = invocations (run_trace r)
         + match run_end r with Done => 1 | _ => 0 end
    /\ invocations (run_trace r) <= fuel
    /\ (run_end r = Done ->
        ds_files (get_directory_state (run_self r) (run_fs r)) = [])
    /\ (run_end r = Aborted -> 1 <= invocations (run_trace r))
    /\ (run_end r = Running -> invocations (run_trace r) = fuel).
Proof.
  induction fuel as [|fuel IH]; intros i o fs r; unfold r; clear r.
  - simpl. repeat split; auto; try lia; discriminate.
  - cbn [organize_from].
    destruct (organize_pass_cases i o fs)
      as [[Hempty ->]|[(fs' & tr & _ & -> & Hi & Hs)
                      |(o' & fs' & tr & _ & -> & Hi & Hs & Ht & Hm & Hsub & Hsize)]].
    + cbn. repeat split; auto; try lia; discriminate.
    + cbn [run_end run_self run_fs run_trace]. rewrite Hi, Hs.
      repeat split; auto; try lia; discriminate.
    + specialize (IH (S i) o' fs').
      destruct IH as (Ht' & Hm' & Hsub' & Hsize' & Hscan' & Hfuel' & Hdone' & Hab' & Hrun').
      cbn [run_end run_self run_fs run_trace].
      rewrite invocations_app, scans_app, Hi, Hs.
      split; [congruence|]. split; [congruence|].
      split; [etransitivity; eassumption|].
      split; [lia|]. split; [lia|]. split; [lia|].
      split; [exact Hdone'|]. split; [lia|].
      intros H. apply Hrun' in H. lia.
Qed.

End RunFacts.

Lemma total_files_length o fs :
  ds_total_files (get_directory_state o fs)
  = List.length (ds_files (get_directory_state o fs)).
Proof. reflexivity. Qed.

(** X7. Over a whole run, however long, the organizer keeps its target
    directory and media type, [processed_files] never loses a path, and
    it gains at most one path per agent invocation. *)
Theorem run_grows_processed_only (search_tmdb : string -> string -> string)
    (os_write : path -> node -> write_fault)
    (agent : nat -> directory_state -> agent_run)
    (fuel : nat) (o : MediaOrganizer) (fs : node) :
  let r := organize search_tmdb os_write agent fuel o fs in
  target_directory (run_self r) = target_directory o
  /\ media_type (run_self r) = media_type o
  /\ processed_files o ⊆ processed_files (run_self r)
  /\ size (processed_files (run_self r))
     <= size (processed_files o) + invocations (run_trace r).
Proof.
  intros r.
  destruct (organize_from_invariant search_tmdb os_write agent fuel 0 o fs)
    as (H1 & H2 & H3 & H4 & _).
  auto.
Qed.

(** X9. A run that ends in [Done] leaves an organizer and a file system
    whose snapshot is empty: nothing is left to offer to the agent. *)
Theorem done_leaves_nothing (search_tmdb : string -> string -> string)
    (os_write : path -> node -> write_fault)
    (agent : nat -> directory_state -> agent_run)
    (fuel : nat) (o : MediaOrganizer) (fs : node) :
  run_end (organize search_tmdb os_write agent fuel o fs) = Done ->
  ds_files
    (get_directory_state (run_self (organize search_tmdb os_write agent fuel o fs))
       (run_fs (organize search_tmdb os_write agent fuel o fs))) = []
  /\ ds_total_files
       (get_directory_state (run_self (organize search_tmdb os_write agent fuel o fs))
          (run_fs (organize search_tmdb os_write agent fuel o fs))) = 0.
Proof.
  intros Hdone.
  destruct (organize_from_invariant search_tmdb os_write agent fuel 0 o fs)
    as (_ & _ & _ & _ & _ & _ & H7 & _).
  specialize (H7 Hdone). split; [exact H7|].
  rewrite total_files_length. unfold organize. now rewrite H7.
Qed.

Lemma done_leaves_nothing_witness :
  ds_files
    (get_directory_state
       (run_self (organize tmdb_down disk_ok agent_files_second 5
                    (new_organizer ["t"] "movie") fs_two_files))
       (run_fs (organize tmdb_down disk_ok agent_files_second 5
                  (new_organizer ["t"] "movie") fs_two_files))) = [].
Proof.
  apply (done_leaves_nothing tmdb_down disk_ok agent_files_second 5
           (new_organizer ["t"] "movie") fs_two_files).
  vm_compute. reflexivity.
Defined.

(** X10. When the snapshot is not empty and every run of the agent for
    it returns without changing the file system and without mentioning
    a completion, the loop never ends: after any number of passes it is
    still running, with the organizer and the file system as they were
    and one agent invocation per pass. *)
Theorem loop_stalls (search_tmdb : string -> string -> string)
    (os_write : path -> node -> write_fault)
    (agent : nat -> directory_state -> agent_run)
    (o : MediaOrganizer) (fs : node) :
  ds_files (get_directory_state o fs) <> [] ->
  (forall i, exists output log,
      run_agent search_tmdb os_write (agent i (get_directory_state o fs)) fs
      = (Returned output, fs, log)
      /\ mentions_completion output = false) ->
  forall fuel i,
    let r := organize_from search_tmdb os_write agent fuel i o fs in
    run_end r = Running
    /\ run_self r = o
    /\ run_fs r = fs
    /\ invocations (run_trace r) = fuel.
Proof.
  intros Hfiles Hagent fuel.
  induction fuel as [|fuel IH]; intros i; [cbn; auto|].
  destruct (IH (S i)) as (He & Hs & Hf & Hi).
  destruct (Hagent i) as (output & log & Hrun & Hno).
  destruct (run_agent_log _ _ _ _ _ _ _ Hrun) as [Hlog _].
  cbn [organize_from]. unfold organize_pass.
  destruct (ds_files (get_directory_state o fs)) as [|first rest];
    [contradiction|].
  rewrite Hrun, Hno. cbn [run_end run_self run_fs run_trace].
  change (Scanned (get_directory_state o fs)
          :: Invoked (get_directory_state o fs) :: log)
    with ([Scanned (get_directory_state o fs);
           Invoked (get_directory_state o fs)] ++ log).
  rewrite !invocations_app, Hlog, Hi. auto.
Qed.

Lemma loop_stalls_witness :
  run_end (organize tmdb_down disk_ok agent_idle 25 (new_organizer ["t"] "movie")
             fs_two_files) = Running
  /\ invocations
       (run_trace (organize tmdb_down disk_ok agent_idle 25 (new_organizer ["t"] "movie")
                     fs_two_files)) = 25.
Proof.
  destruct (loop_stalls tmdb_down disk_ok agent_idle (new_organizer ["t"] "movie")
              fs_two_files) with (fuel := 25) (i := 0)
    as (He & _ & _ & Hi).
  - vm_compute. discriminate.
  - intros i. exists (Some "nothing to do"), []. split; reflexivity.
  - split; assumption.
Defined.

(* ===================================================================== *)
(** * Recording a path shortens the snapshot *)
(* ===================================================================== *)

Lemma keep_item_add_processed o fs p item :
  keep_item (set_processed o (add_processed p (processed_files o))) fs item
  = keep_item o fs item && negb (String.eqb (path_str (fst item)) p).
Proof.
  unfold keep_item. destruct (snd item) as [r w data|es]; [|reflexivity].
  destruct (String.eqb (path_name (fst item)) hash_filename); [reflexivity|].
  destruct (fs_exists (path_parent (fst item) ++ [hash_filename]) fs);
    [reflexivity|].
  cbn [processed_files set_processed]. unfold add_processed.
  destruct (String.eqb_spec (path_str (fst item)) p) as [->|Hne].
  - rewrite andb_false_r. apply negb_false_iff, bool_decide_eq_true.
    apply elem_of_union_l, elem_of_singleton. reflexivity.
  - rewrite andb_true_r. f_equal. apply bool_decide_ext.
    rewrite elem_of_union, elem_of_singleton. tauto.
Qed.

Lemma filter_and_le {A : Type} (f g : A -> bool) l :
  List.length (List.filter (fun x => f x && g x) l)
  <= List.length (List.filter f l).
Proof.
  induction l as [|a l IH]; simpl; [lia|].
  destruct (f a), (g a); simpl; lia.
Qed.

Lemma filter_and_head {A : Type} (f g : A -> bool) l x rest :
  List.filter f l = x :: rest ->
  g x = false ->
  List.length (List.filter (fun y => f y && g y) l) <= List.length rest.
Proof.
  induction l as [|a l IH]; simpl; [discriminate|].
  destruct (f a) eqn:Hf; simpl.
  - intros [= -> <-] Hg. rewrite Hg. simpl. apply filter_and_le.
  - exact IH.
Qed.

(** Recording the path of the first entry leaves a strictly shorter
    snapshot of the same file system. *)
Lemma snapshot_shrinks o fs first rest :
  ds_files (get_directory_state o fs) = first :: rest ->
  List.length
    (ds_files
       (get_directory_state
          (set_processed o (add_processed (fi_path first) (processed_files o)))
          fs))
  <= List.length rest.
Proof.
  cbn [ds_files get_directory_state]. unfold snapshot_items.
  cbn [target_directory set_processed].
  destruct (List.filter (keep_item o fs) (rglob_at (target_directory o) fs))
    as [|item items] eqn:Hitems; [discriminate|].
  intros [= <- <-]. rewrite !List.length_map.
  rewrite (List.filter_ext _ _ (keep_item_add_processed o fs _)).
  eapply filter_and_head; [exact Hitems|].
  cbn [fi_path make_file_info]. now rewrite String.eqb_refl.
Qed.

(** X11. When every run of the agent returns with an output that
    mentions a completion and leaves the file system as it is, the loop
    ends in [Done] as soon as it is allowed more passes than the first
    snapshot has entries, after at most one invocation per entry. *)
Theorem loop_finishes (search_tmdb : string -> string -> string)
    (os_write : path -> node -> write_fault)
    (agent : nat -> directory_state -> agent_run) (fs : node) :
  (forall i state, exists output log,
      run_agent search_tmdb os_write (agent i state) fs = (Returned output, fs, log)
      /\ mentions_completion output = true) ->
  forall (o : MediaOrganizer) (i fuel : nat),
    List.length (ds_files (get_directory_state o fs)) < fuel ->
    let r := organize_from search_tmdb os_write agent fuel i o fs in
    run_end r = Done
    /\ run_fs r = fs
    /\ invocations (run_trace r)
       <= List.length (ds_files (get_directory_state o fs)).
Proof.
  intros Hagent o i fuel.
  remember (List.length (ds_files (get_directory_state o fs))) as n eqn:Hn.
  assert (Hle : List.length (ds_files (get_directory_state o fs)) <= n) by lia.
  clear Hn. revert o i fuel Hle.
  induction n as [|n IH]; intros o i fuel Hle Hfuel.
  - destruct fuel as [|fuel]; [lia|].
    cbn [organize_from]. unfold organize_pass.
    destruct (ds_files (get_directory_state o fs)); [|simpl in Hle; lia].
    cbn. auto.
  - destruct fuel as [|fuel]; [lia|].
    cbn [organize_from]. unfold organize_pass.
    destruct (ds_files (get_directory_state o fs)) as [|first rest] eqn:Hfiles.
    { cbn. repeat split; auto; lia. }
    destruct (Hagent i (get_directory_state o fs)) as (output & log & Hrun & Hyes).
    destruct (run_agent_log _ _ _ _ _ _ _ Hrun) as [Hlog _].
    rewrite Hrun, Hyes.
    pose proof (snapshot_shrinks o fs first rest Hfiles) as Hshort.
    simpl in Hle.
    destruct (IH (set_processed o
                    (add_processed (fi_path first) (processed_files o)))
                 (S i) fuel) as (He & Hf & Hi); [lia|lia|].
    cbn [run_end run_self run_fs run_trace record_first List.firstn List.fold_left].
    split; [exact He|]. split; [exact Hf|].
    change (Scanned (get_directory_state o fs)
            :: Invoked (get_directory_state o fs)
            :: log ++ [Recorded (fi_path first)])
      with ([Scanned (get_directory_state o fs);
             Invoked (get_directory_state o fs)]
            ++ log ++ [Recorded (fi_path first)]).
    rewrite !invocations_app, Hlog. simpl. lia.
Qed.

Lemma loop_finishes_witness :
  run_end (organize tmdb_down disk_ok agent_ticks 3 (new_organizer ["t"] "movie")
             fs_two_files) = Done
  /\ invocations
       (run_trace (organize tmdb_down disk_ok agent_ticks 3 (new_organizer ["t"] "movie")
                     fs_two_files)) <= 2.
Proof.
  destruct (loop_finishes tmdb_down disk_ok agent_ticks fs_two_files) with
    (o := new_organizer ["t"] "movie") (i := 0) (fuel := 3)
    as (He & _ & Hi).
  - intros i state. exists (Some "Marked as completed."), [].
    split; reflexivity.
  - vm_compute. lia.
  - split; [exact He|exact Hi].
Defined.

(* ===================================================================== *)
(** * Paths: prefixes *)
(* ===================================================================== *)

Lemma path_prefix_length a :
  forall b, path_prefix a b = true -> List.length a <= List.length b.
Proof.
  induction a as [|x a IH]; intros [|y b]; simpl; try lia; try discriminate.
  intros [_ H]%andb_prop. apply IH in H. lia.
Qed.

Lemma path_prefix_refl a : path_prefix a a = true.
Proof. induction a as [|x a IH]; simpl; [reflexivity|]. now rewrite String.eqb_refl. Qed.

Lemma path_eqb_eq a : forall b, path_eqb a b = true -> a = b.
Proof.
  unfold path_eqb. induction a as [|x a IH]; intros [|y b]; simpl;
    try reflexivity; try discriminate.
  intros [Ha Hb]%andb_prop.
  apply andb_prop in Ha, Hb. destruct Ha as [Hxy H1], Hb as [_ H2].
  apply String.eqb_eq in Hxy. subst y. f_equal. apply IH.
  now rewrite H1, H2.
Qed.

Lemma path_eqb_neq a b : a <> b -> path_eqb a b = false.
Proof.
  intros Hne. destruct (path_eqb a b) eqn:E; [|reflexivity].
  apply path_eqb_eq in E. contradiction.
Qed.

Lemma path_prefix_app a b : path_prefix a (a ++ b) = true.
Proof. induction a as [|x a IH]; simpl; [reflexivity|]. now rewrite String.eqb_refl. Qed.

Lemma path_prefix_inv a :
  forall b, path_prefix a b = true -> exists rest, b = a ++ rest.
Proof.
  induction a as [|x a IH]; intros b; simpl; [eauto|].
  destruct b as [|y b]; [discriminate|].
  intros [Hxy H]%andb_prop. apply String.eqb_eq in Hxy. subst y.
  destruct (IH _ H) as [rest ->]. eauto.
Qed.

Lemma path_parent_app a rest :
  rest <> [] -> path_parent (a ++ rest) = a ++ path_parent rest.
Proof.
  intros Hne. unfold path_parent.
  induction a as [|x a IH]; simpl; [reflexivity|].
  destruct (a ++ rest) eqn:E.
  - apply List.app_eq_nil in E. destruct E; contradiction.
  - now rewrite IH.
Qed.

(** A prefix of a path is the path or a prefix of its parent. *)
Lemma path_prefix_parent a b :
  path_prefix a b = true -> a = b \/ path_prefix a (path_parent b) = true.
Proof.
  intros H. destruct (path_prefix_inv _ _ H) as [rest ->].
  destruct rest as [|k rest].
  - left. now rewrite List.app_nil_r.
  - right. rewrite path_parent_app by discriminate. apply path_prefix_app.
Qed.

Lemma path_not_prefix_of_parent p : p <> [] -> path_prefix p (path_parent p) = false.
Proof.
  intros Hne. destruct (path_prefix p (path_parent p)) eqn:E; [|reflexivity].
  apply path_prefix_length in E. unfold path_parent in E.
  destruct (List.exists_last Hne) as (q & x & ->).
  rewrite List.removelast_last, List.length_app in E. simpl in E. lia.
Qed.

Lemma path_snoc_parent p : p <> [] -> p = path_parent p ++ [path_name p].
Proof. intros Hne. now apply List.app_removelast_last. Qed.

(* ===================================================================== *)
(** * What lies below a path *)
(* ===================================================================== *)

(** Nothing is named below a path that names nothing or a regular file. *)
Lemma stat_below a :
  forall q fs,
    stat a fs <> Some IsDir ->
    path_prefix a q = true -> q <> a ->
    stat q fs = None.
Proof.
  induction a as [|x a IH]; intros q fs Ha Hpre Hq.
  - destruct fs as [r w d|es]; [|now contradiction Ha].
    destruct q; [contradiction|reflexivity].
  - destruct q as [|y q]; [discriminate|]. simpl in Hpre.
    apply andb_prop in Hpre. destruct Hpre as [Hxy Hpre].
    apply String.eqb_eq in Hxy. subst y.
    destruct fs as [r w d|es]; [reflexivity|].
    rewrite stat_cons in *. destruct (assoc x es); [|reflexivity].
    apply IH; auto. congruence.
Qed.

(** A path with a directory at it has directories above it. *)
Lemma stat_above a :
  forall q fs,
    path_prefix a q = true ->
    stat q fs <> None ->
    a <> q ->
    stat a fs = Some IsDir.
Proof.
  intros q fs Hpre Hq Hne.
  destruct (stat a fs) as [[|r w d]|] eqn:Ha; [reflexivity| |];
    exfalso; apply Hq; apply (stat_below a); auto; rewrite Ha; discriminate.
Qed.

(* ===================================================================== *)
(** * mkdir with parents *)
(* ===================================================================== *)

Lemma stat_new_dirs p : stat p (new_dirs p) = Some IsDir.
Proof.
  induction p as [|x p IH]; [reflexivity|].
  simpl. rewrite stat_cons. simpl. now rewrite String.eqb_refl.
Qed.

Lemma stat_new_dirs_other p :
  forall q, path_prefix q p = false -> stat q (new_dirs p) = None.
Proof.
  induction p as [|x p IH]; intros [|y q] H; try discriminate; [reflexivity|].
  simpl in H. simpl. rewrite stat_cons. simpl.
  destruct (String.eqb_spec x y) as [->|Hne]; [|reflexivity].
  rewrite String.eqb_refl in H. now apply IH.
Qed.

(** [mkdir] leaves what exists as it is. *)
Lemma mkdir_go_preserves p :
  forall fs fs1 q k,
    mkdir_go p fs = Some fs1 ->
    stat q fs = Some k -> stat q fs1 = Some k.
Proof.
  induction p as [|name rest IH]; intros fs fs1 q k.
  - destruct fs; simpl; [discriminate|]. now intros [= <-].
  - destruct fs as [r w d|es]; simpl; [discriminate|].
    destruct (assoc name es) as [c|] eqn:Hname.
    + destruct (mkdir_go rest c) as [c'|] eqn:Hc; [|discriminate].
      intros [= <-]. destruct q as [|y q]; [auto|]. rewrite !stat_cons.
      destruct (String.eqb_spec y name) as [->|Hne].
      * erewrite assoc_replace_entry by eauto. rewrite Hname. eauto.
      * now rewrite assoc_replace_entry_other.
    + intros [= <-]. destruct q as [|y q]; [auto|]. rewrite !stat_cons.
      destruct (String.eqb_spec y name) as [->|Hne].
      * rewrite Hname. discriminate.
      * now rewrite assoc_snoc_other.
Qed.

(** [mkdir] touches only the path it makes and what is above it. *)
Lemma mkdir_go_other p :
  forall fs fs1 q,
    mkdir_go p fs = Some fs1 ->
    path_prefix q p = false ->
    stat q fs1 = stat q fs.
Proof.
  induction p as [|name rest IH]; intros fs fs1 q.
  - destruct fs; simpl; [discriminate|]. now intros [= <-].
  - destruct fs as [r w d|es]; simpl; [discriminate|].
    destruct q as [|y q]; [discriminate|]. simpl.
    destruct (assoc name es) as [c|] eqn:Hname.
    + destruct (mkdir_go rest c) as [c'|] eqn:Hc; [|discriminate].
      intros [= <-] Hpre. rewrite !stat_cons.
      destruct (String.eqb_spec y name) as [->|Hne].
      * erewrite assoc_replace_entry by eauto. rewrite Hname. eauto.
      * now rewrite assoc_replace_entry_other.
    + intros [= <-] Hpre. rewrite !stat_cons.
      destruct (String.eqb_spec y name) as [->|Hne].
      * rewrite assoc_snoc_fresh, Hname by exact Hname.
        now apply stat_new_dirs_other.
      * now rewrite assoc_snoc_other.
Qed.

(** After [mkdir] the path is a directory. *)
Lemma mkdir_go_is_dir p :
  forall fs fs1, mkdir_go p fs = Some fs1 -> stat p fs1 = Some IsDir.
Proof.
  induction p as [|name rest IH]; intros fs fs1.
  - destruct fs; simpl; [discriminate|]. now intros [= <-].
  - destruct fs as [r w d|es]; simpl; [discriminate|].
    destruct (assoc name es) as [c|] eqn:Hname.
    + destruct (mkdir_go rest c) as [c'|] eqn:Hc; [|discriminate].
      intros [= <-]. rewrite stat_cons.
      erewrite assoc_replace_entry by eauto. eauto.
    + intros [= <-]. rewrite stat_cons, assoc_snoc_fresh by exact Hname.
      apply stat_new_dirs.
Qed.

(** [mkdir] succeeds when no regular file stands at the path or above. *)
Lemma mkdir_go_succeeds p :
  forall fs,
    (forall q, path_prefix q p = true -> is_file q fs = false) ->
    exists fs1, mkdir_go p fs = Some fs1.
Proof.
  induction p as [|name rest IH]; intros fs Hfree.
  - destruct fs as [r w d|es]; [|simpl; eauto].
    specialize (Hfree [] eq_refl). discriminate.
  - destruct fs as [r w d|es].
    { specialize (Hfree [] eq_refl). discriminate. }
    simpl. destruct (assoc name es) as [c|] eqn:Hname; [|eauto].
    destruct (IH c) as [c' ->]; [|eauto].
    intros q Hq. specialize (Hfree (name :: q)).
    simpl in Hfree. rewrite String.eqb_refl in Hfree. specialize (Hfree Hq).
    unfold is_file in *. simpl in Hfree. now rewrite Hname in Hfree.
Qed.

(** Conversely, where [mkdir] succeeds no regular file stood in the way. *)
Lemma mkdir_go_free p :
  forall fs fs1 q,
    mkdir_go p fs = Some fs1 ->
    path_prefix q p = true -> is_file q fs = false.
Proof.
  induction p as [|name rest IH]; intros fs fs1 q.
  - destruct fs; simpl; [discriminate|]. intros _. now destruct q.
  - destruct fs as [r w d|es]; simpl; [discriminate|].
    destruct q as [|y q]; [reflexivity|]. simpl.
    destruct (assoc name es) as [c|] eqn:Hname.
    + destruct (mkdir_go rest c) as [c'|] eqn:Hc; [|discriminate].
      intros _ [Hy Hq]%andb_prop. apply String.eqb_eq in Hy. subst y.
      unfold is_file. simpl. rewrite Hname. exact (IH _ _ _ Hc Hq).
    + intros _ [Hy Hq]%andb_prop. apply String.eqb_eq in Hy. subst y.
      unfold is_file. simpl. now rewrite Hname.
Qed.

(* ===================================================================== *)
(** * Well-formedness is kept *)
(* ===================================================================== *)

Lemma replace_entry_absent name v es :
  assoc name es = None -> replace_entry name v es = es.
Proof.
  induction es as [|[k c] es IH]; simpl; [reflexivity|].
  destruct (String.eqb k name); [discriminate|]. intros H. now rewrite IH.
Qed.

Lemma assoc_replace_entry_none k name v es :
  assoc k es = None -> assoc k (replace_entry name v es) = None.
Proof.
  intros H. destruct (String.eqb_spec k name) as [->|Hne].
  - now rewrite replace_entry_absent.
  - now rewrite assoc_replace_entry_other.
Qed.

Lemma unique_names_replace_entry name v es :
  unique_names es = true -> unique_names (replace_entry name v es) = true.
Proof.
  induction es as [|[k c] es IH]; simpl; [reflexivity|].
  destruct (assoc k es) eqn:Hk; [discriminate|]. intros Hu.
  destruct (String.eqb k name); simpl.
  - now rewrite Hk.
  - rewrite assoc_replace_entry_none by exact Hk. auto.
Qed.

Lemma unique_names_snoc name v es :
  assoc name es = None ->
  unique_names es = true -> unique_names (es ++ [(name, v)]) = true.
Proof.
  induction es as [|[k c] es IH]; simpl; [reflexivity|].
  destruct (String.eqb_spec k name) as [->|Hne]; [discriminate|].
  intros Hn. destruct (assoc k es) eqn:Hk; [discriminate|].
  rewrite assoc_snoc_other, Hk by exact Hne. auto.
Qed.

Lemma unique_names_remove_entry name es :
  unique_names es = true -> unique_names (remove_entry name es) = true.
Proof.
  induction es as [|[k c] es IH]; simpl; [reflexivity|].
  destruct (assoc k es) eqn:Hk; [discriminate|]. intros Hu.
  destruct (String.eqb_spec k name) as [->|Hne]; [exact Hu|]. simpl.
  rewrite assoc_remove_entry_other, Hk by exact Hne. auto.
Qed.

Lemma well_formed_dir es :
  well_formed (Dir es) = true
  <-> unique_names es = true
      /\ forall k c, In (k, c) es -> well_formed c = true.
Proof.
  simpl. rewrite andb_true_iff, List.forallb_forall. split.
  - intros [Hu Hall]. split; [exact Hu|]. intros k c Hin. exact (Hall _ Hin).
  - intros [Hu Hall]. split; [exact Hu|]. intros [k c] Hin. exact (Hall _ _ Hin).
Qed.

Lemma In_replace_entry name v es k c :
  In (k, c) (replace_entry name v es) -> In (k, c) es \/ c = v.
Proof.
  induction es as [|[k0 c0] es IH]; simpl; [tauto|].
  destruct (String.eqb k0 name); simpl.
  - intros [[= <- <-]|H]; auto.
  - intros [H|H]; auto. destruct (IH H); auto.
Qed.

Lemma In_remove_entry name es k c :
  In (k, c) (remove_entry name es) -> In (k, c) es.
Proof.
  induction es as [|[k0 c0] es IH]; simpl; [tauto|].
  destruct (String.eqb k0 name); simpl; [auto|].
  intros [H|H]; auto.
Qed.

Lemma well_formed_replace_entry name v es :
  well_formed (Dir es) = true -> well_formed v = true ->
  well_formed (Dir (replace_entry name v es)) = true.
Proof.
  rewrite !well_formed_dir. intros [Hu Hall] Hv. split.
  - now apply unique_names_replace_entry.
  - intros k c Hin. apply In_replace_entry in Hin.
    destruct Hin as [Hin| ->]; eauto.
Qed.

Lemma well_formed_snoc name v es :
  assoc name es = None ->
  well_formed (Dir es) = true -> well_formed v = true ->
  well_formed (Dir (es ++ [(name, v)])) = true.
Proof.
  rewrite !well_formed_dir. intros Hn [Hu Hall] Hv. split.
  - now apply unique_names_snoc.
  - intros k c Hin. apply List.in_app_or in Hin.
    destruct Hin as [Hin|[[= <- <-]|[]]]; eauto.
Qed.

Lemma well_formed_remove_entry name es :
  well_formed (Dir es) = true -> well_formed (Dir (remove_entry name es)) = true.
Proof.
  rewrite !well_formed_dir. intros [Hu Hall]. split.
  - now apply unique_names_remove_entry.
  - intros k c Hin. apply In_remove_entry in Hin. eauto.
Qed.

Lemma well_formed_new_dirs p : well_formed (new_dirs p) = true.
Proof. induction p as [|x p IH]; simpl; [reflexivity|]. now rewrite IH. Qed.

Lemma well_formed_mkdir_go p :
  forall fs fs1,
    well_formed fs = true -> mkdir_go p fs = Some fs1 -> well_formed fs1 = true.
Proof.
  induction p as [|name rest IH]; intros fs fs1 Hwf.
  - destruct fs; simpl; [discriminate|]. now intros [= <-].
  - destruct fs as [r w d|es]; simpl; [discriminate|].
    destruct (assoc name es) as [c|] eqn:Hname.
    + destruct (mkdir_go rest c) as [c'|] eqn:Hc; [|discriminate].
      intros [= <-]. apply well_formed_replace_entry; [exact Hwf|].
      eapply IH; [|exact Hc]. eapply well_formed_entry; eauto using assoc_In.
    + intros [= <-]. apply well_formed_snoc; auto. apply well_formed_new_dirs.
Qed.

Lemma well_formed_fs_remove src :
  forall fs, well_formed fs = true -> well_formed (fs_remove src fs) = true.
Proof.
  induction src as [|name rest IH]; intros fs Hwf; [exact Hwf|].
  simpl. destruct fs as [r w d|es]; [reflexivity|].
  destruct rest as [|k2 rest].
  - now apply well_formed_remove_entry.
  - destruct (assoc name es) as [c|] eqn:Hname; [|exact Hwf].
    apply well_formed_replace_entry; [exact Hwf|].
    apply IH. eapply well_formed_entry; eauto using assoc_In.
Qed.

(* ===================================================================== *)
(** * Renaming a regular file *)
(* ===================================================================== *)

(** [os.rename] of a regular file onto a path that is not a directory
    and whose parent is one: the destination then names the file, the
    source names nothing, and no other path is affected. *)
Lemma rename_file_effect src dst fs r w data :
  well_formed fs = true ->
  fs_lookup src fs = Some (File r w data) ->
  src <> dst -> dst <> [] ->
  stat (path_parent dst) fs = Some IsDir ->
  stat dst fs <> Some IsDir ->
  let fs' := fs_put dst (File r w data) (fs_remove src fs) in
  os_rename src dst fs = Ok fs'
  /\ stat dst fs' = Some (IsFile r w data)
  /\ stat src fs' = None
  /\ forall q, q <> src -> q <> dst -> stat q fs' = stat q fs.
Proof.
  intros Hwf Hsrc Hne Hdst Hparent Hnodir fs'.
  assert (Hs : stat src fs = Some (IsFile r w data)) by now apply stat_lookup_file.
  assert (Hs' : stat src fs <> Some IsDir) by (rewrite Hs; discriminate).
  assert (Hsrc0 : src <> []).
  { intros ->. simpl in Hsrc. injection Hsrc as ->.
    destruct (path_parent dst); discriminate. }
  assert (Hpp : path_prefix src (path_parent dst) = false).
  { destruct (path_prefix src (path_parent dst)) eqn:E; [exfalso|reflexivity].
    destruct (list_eq_dec String.string_dec (path_parent dst) src) as [Heq|Hneq].
    - rewrite Heq in Hparent. congruence.
    - rewrite (stat_below src _ fs Hs' E Hneq) in Hparent. discriminate. }
  assert (Hpd : path_prefix src dst = false).
  { destruct (path_prefix src dst) eqn:E; [exfalso|reflexivity].
    destruct (path_prefix_parent _ _ E) as [Heq|Hp]; [contradiction|congruence]. }
  assert (Hrm : stat dst (fs_remove src fs) <> Some IsDir)
    by now rewrite stat_fs_remove_other.
  split; [|split; [|split]].
  - unfold os_rename. rewrite Hsrc.
    destruct src as [|s0 src']; [contradiction|].
    destruct dst as [|d0 dst']; [contradiction|].
    rewrite (path_eqb_neq _ _ Hne).
    apply stat_is_dir in Hparent. rewrite Hparent. simpl negb. cbv iota.
    unfold stat in Hnodir.
    destruct (fs_lookup (d0 :: dst') fs) as [[? ? ?|?]|]; try reflexivity.
    now contradiction Hnodir.
  - unfold fs'. rewrite (path_snoc_parent dst Hdst) at 1 2.
    apply stat_lookup_file, fs_lookup_put_child, stat_is_dir.
    now rewrite stat_fs_remove_other.
  - unfold fs'. rewrite stat_fs_put_file by auto.
    apply stat_fs_remove_same; auto.
  - intros q Hq1 Hq2. unfold fs'. rewrite stat_fs_put_file by auto.
    destruct (path_prefix src q) eqn:E.
    + rewrite (stat_below src q fs Hs' E Hq1).
      apply (stat_below src); [|exact E|exact Hq1].
      rewrite stat_fs_remove_same by auto. discriminate.
    + now apply stat_fs_remove_other.
Qed.

(* ===================================================================== *)
(** * More about move_rename_file *)
(* ===================================================================== *)

Lemma path_prefix_of_parent q dst :
  path_prefix q (path_parent dst) = true -> path_prefix q dst = true.
Proof.
  intros Hq. destruct (path_prefix_inv _ _ Hq) as [rest Hrest].
  destruct (list_eq_dec String.string_dec dst []) as [->|Hne].
  - exact Hq.
  - rewrite (path_snoc_parent dst Hne), Hrest, <- List.app_assoc.
    apply path_prefix_app.
Qed.

Lemma mkdir_p_ok p fs fs1 : mkdir_go p fs = Some fs1 -> mkdir_p p fs = Ok fs1.
Proof. unfold mkdir_p. now intros ->. Qed.

(** X12. In a well-formed file system, moving a regular file to a path
    that is not a directory, with no regular file standing where the
    destination's parent directories go, succeeds: the missing parents
    are created, the destination then names a file with the source's
    bytes and permissions (replacing a regular file that was there), the
    source names nothing, and whatever else existed is as it was. *)
Theorem move_file_to_path (src dst : path) (fs : node)
    (r w : bool) (data : list byte) :
  well_formed fs = true ->
  fs_lookup src fs = Some (File r w data) ->
  is_dir dst fs = false ->
  src <> dst ->
  (forall q, path_prefix q (path_parent dst) = true -> is_file q fs = false) ->
  let fs' := snd (move_rename_file src dst fs) in
  fst (move_rename_file src dst fs) = Moved
  /\ stat dst fs' = Some (IsFile r w data)
  /\ stat src fs' = None
  /\ stat (path_parent dst) fs' = Some IsDir
  /\ forall q k, q <> src -> q <> dst -> stat q fs = Some k -> stat q fs' = Some k.
Proof.
  intros Hwf Hsrc Hnodir Hne Hfree.
  destruct (mkdir_go_succeeds _ _ Hfree) as [fs1 Hmk].
  assert (Hroot : is_dir [] fs = true).
  { specialize (Hfree [] eq_refl). unfold is_file, is_dir in *. simpl in *.
    now destruct fs. }
  assert (Hdst : dst <> []) by (intros ->; congruence).
  assert (Hs1 : fs_lookup src fs1 = Some (File r w data)).
  { apply stat_lookup_file. eapply mkdir_go_preserves; [exact Hmk|].
    now apply stat_lookup_file. }
  assert (Hd1 : stat dst fs1 = stat dst fs).
  { eapply mkdir_go_other; [exact Hmk|]. now apply path_not_prefix_of_parent. }
  assert (Hnd1 : stat dst fs1 <> Some IsDir).
  { rewrite Hd1. intros H%stat_is_dir. congruence. }
  pose proof (mkdir_go_is_dir _ _ _ Hmk) as Hp1.
  pose proof (well_formed_mkdir_go _ _ _ Hwf Hmk) as Hwf1.
  destruct (rename_file_effect src dst fs1 r w data Hwf1 Hs1 Hne Hdst Hp1 Hnd1)
    as (Hren & Hdst' & Hsrc' & Hframe).
  assert (Hmove : move_rename_file src dst fs
                  = (Moved, fs_put dst (File r w data) (fs_remove src fs1))).
  { unfold move_rename_file, fs_exists. rewrite Hsrc. simpl.
    rewrite (mkdir_p_ok _ _ _ Hmk). unfold shutil_move.
    assert (Hnd : is_dir dst fs1 = false).
    { destruct (is_dir dst fs1) eqn:E; [|reflexivity].
      apply stat_is_dir in E. contradiction. }
    now rewrite Hnd, Hren. }
  rewrite Hmove. cbn [fst snd].
  split; [reflexivity|]. split; [exact Hdst'|]. split; [exact Hsrc'|].
  split.
  - rewrite Hframe; [exact Hp1| |].
    + intros E. rewrite E in Hp1.
      apply stat_lookup_file in Hs1. congruence.
    + intros E. pose proof (path_not_prefix_of_parent dst Hdst) as Hn.
      rewrite E, path_prefix_refl in Hn. discriminate.
  - intros q k Hq1 Hq2 Hk. rewrite Hframe by auto.
    eapply mkdir_go_preserves; eauto.
Qed.

Lemma move_file_to_path_witness :
  fst (move_rename_file ["t"; "b.mkv"] ["t"; "Film"; "2012"; "b.mkv"] fs_two_files)
  = Moved
  /\ stat ["t"; "Film"; "2012"; "b.mkv"]
       (snd (move_rename_file ["t"; "b.mkv"] ["t"; "Film"; "2012"; "b.mkv"]
               fs_two_files))
     = Some (IsFile true true ["b"%byte]).
Proof.
  destruct (move_file_to_path ["t"; "b.mkv"] ["t"; "Film"; "2012"; "b.mkv"]
              fs_two_files true true ["b"%byte]) as (H1 & H2 & _);
    try reflexivity; try discriminate.
  - intros q Hq. eapply (mkdir_go_free ["t"; "Film"; "2012"]); [|exact Hq].
    reflexivity.
  - split; assumption.
Defined.

(** X13. In a well-formed file system, moving a regular file onto an
    existing directory that holds no entry of the file's name puts the
    file into that directory under its own name: the move succeeds, the
    file is then named there with its bytes and permissions, the source
    names nothing, and whatever else existed is as it was. *)
Theorem move_file_into_directory (src dst : path) (fs : node)
    (r w : bool) (data : list byte) :
  well_formed fs = true ->
  fs_lookup src fs = Some (File r w data) ->
  is_dir dst fs = true ->
  fs_exists (dst ++ [path_name src]) fs = false ->
  let fs' := snd (move_rename_file src dst fs) in
  fst (move_rename_file src dst fs) = Moved
  /\ stat (dst ++ [path_name src]) fs' = Some (IsFile r w data)
  /\ stat src fs' = None
  /\ forall q k,
       q <> src -> q <> dst ++ [path_name src] ->
       stat q fs = Some k -> stat q fs' = Some k.
Proof.
  intros Hwf Hsrc Hdir Hfresh.
  apply stat_is_dir in Hdir. apply stat_exists in Hfresh.
  assert (Hs : stat src fs = Some (IsFile r w data)) by now apply stat_lookup_file.
  assert (Hfree : forall q, path_prefix q (path_parent dst) = true ->
                            is_file q fs = false).
  { intros q Hq. unfold is_file.
    destruct (fs_lookup q fs) as [[r0 w0 d0|es]|] eqn:E; try reflexivity.
    exfalso.
    pose proof (path_prefix_of_parent _ _ Hq) as Hq'.
    assert (Hqd : q <> dst).
    { intros ->. unfold stat in Hdir. rewrite E in Hdir. discriminate. }
    pose proof (stat_above q dst fs Hq') as Ha.
    unfold stat in Ha at 2. rewrite E in Ha.
    rewrite Hdir in Ha. specialize (Ha ltac:(discriminate) Hqd). discriminate. }
  destruct (mkdir_go_succeeds _ _ Hfree) as [fs1 Hmk].
  pose proof (well_formed_mkdir_go _ _ _ Hwf Hmk) as Hwf1.
  assert (Hs1 : fs_lookup src fs1 = Some (File r w data)).
  { apply stat_lookup_file. eapply mkdir_go_preserves; eauto. }
  assert (Hdir1 : stat dst fs1 = Some IsDir) by (eapply mkdir_go_preserves; eauto).
  assert (Hfresh1 : stat (dst ++ [path_name src]) fs1 = None).
  { rewrite <- Hfresh. eapply mkdir_go_other; [exact Hmk|].
    destruct (path_prefix (dst ++ [path_name src]) (path_parent dst)) eqn:E;
      [exfalso|reflexivity].
    apply path_prefix_length in E. rewrite List.length_app in E. simpl in E.
    unfold path_parent in E.
    destruct dst as [|d0 dst'] using List.rev_ind; [simpl in E; lia|].
    rewrite List.removelast_last, List.length_app in E. simpl in E. lia. }
  assert (Hne : src <> dst ++ [path_name src]).
  { intros E. rewrite <- E in Hfresh. congruence. }
  assert (Hsd : src <> dst) by (intros E; rewrite E in Hs; congruence).
  assert (Hsrc0 : src <> []).
  { intros E. rewrite E in Hs. destruct fs; [|discriminate].
    destruct dst; discriminate. }
  destruct (rename_file_effect src (dst ++ [path_name src]) fs1 r w data)
    as (Hren & Hdst' & Hsrc' & Hframe); auto.
  { now destruct dst. }
  { now rewrite path_parent_snoc. }
  { rewrite Hfresh1. discriminate. }
  assert (Hmove : move_rename_file src dst fs
                  = (Moved, fs_put (dst ++ [path_name src]) (File r w data)
                              (fs_remove src fs1))).
  { unfold move_rename_file, fs_exists. rewrite Hsrc. simpl.
    rewrite (mkdir_p_ok _ _ _ Hmk). unfold shutil_move.
    apply stat_is_dir in Hdir1. rewrite Hdir1.
    rewrite (path_eqb_neq _ _ Hsd), (path_eqb_neq _ _ Hsrc0).
    apply stat_exists in Hfresh1. rewrite Hfresh1. simpl.
    now rewrite Hren. }
  rewrite Hmove. cbn [fst snd].
  split; [reflexivity|]. split; [exact Hdst'|]. split; [exact Hsrc'|].
  intros q k Hq1 Hq2 Hk. rewrite Hframe by auto.
  eapply mkdir_go_preserves; eauto.
Qed.

Lemma move_file_into_directory_witness :
  fst (move_rename_file ["t"; "b.mkv"] [] fs_two_files) = Moved
  /\ stat ["b.mkv"] (snd (move_rename_file ["t"; "b.mkv"] [] fs_two_files))
     = Some (IsFile true true ["b"%byte]).
Proof.
  destruct (move_file_into_directory ["t"; "b.mkv"] [] fs_two_files
              true true ["b"%byte]) as (H1 & H2 & _);
    try reflexivity.
  split; assumption.
Defined.

(** X14. A move that does not succeed loses nothing: whatever a path
    named before (a directory, or a regular file with its bytes and
    permissions) it still names afterwards. *)
Theorem failed_move_loses_nothing (src dst q : path) (fs : node)
    (k : entry_kind) :
  fst (move_rename_file src dst fs) <> Moved ->
  stat q fs = Some k ->
  stat q (snd (move_rename_file src dst fs)) = Some k.
Proof.
  unfold move_rename_file.
  destruct (fs_exists src fs); simpl; [|auto].
  unfold mkdir_p.
  destruct (mkdir_go (path_parent dst) fs) as [fs1|] eqn:Hmk.
  - destruct (shutil_move src dst fs1); simpl.
    + intros H. now contradiction H.
    + intros _ Hk. eapply mkdir_go_preserves; eauto.
  - destruct (is_file (path_parent dst) fs); simpl; auto.
Qed.

Lemma failed_move_loses_nothing_witness :
  fst (move_rename_file ["t"] ["t"; "x"; "y"] fs_two_files) <> Moved
  /\ stat ["t"; "a.mkv"]
       (snd (move_rename_file ["t"] ["t"; "x"; "y"] fs_two_files))
     = Some (IsFile true true ["a"%byte]).
Proof.
  assert (H : fst (move_rename_file ["t"] ["t"; "x"; "y"] fs_two_files) <> Moved)
    by (vm_compute; discriminate).
  split; [exact H|].
  apply (failed_move_loses_nothing ["t"] ["t"; "x"; "y"] ["t"; "a.mkv"]
           fs_two_files _ H).
  reflexivity.
Defined.

Lemma os_rename_into_itself src dst fs :
  is_dir src fs = true ->
  path_prefix src dst = true -> src <> dst ->
  exists e, os_rename src dst fs = Raise e.
Proof.
  intros Hdir Hpre Hne. unfold os_rename.
  destruct (is_dir_lookup _ _ Hdir) as [es ->].
  destruct src as [|s0 src']; [destruct dst; eauto|].
  destruct dst as [|d0 dst']; [eauto|].
  rewrite (path_eqb_neq _ _ Hne).
  destruct (is_dir (path_parent (d0 :: dst')) fs); cbn [negb].
  - destruct (fs_lookup (d0 :: dst') fs) as [[? ? ?|[|? ?]]|];
      try rewrite Hpre; eauto.
  - destruct (fs_exists (path_parent (d0 :: dst')) fs); eauto.
Qed.

(** X15. Moving a directory to a path below itself never succeeds: the
    tool reports a failure, and the directory is still there. *)
Theorem move_directory_into_itself (src dst : path) (fs : node) :
  is_dir src fs = true ->
  path_prefix src dst = true ->
  src <> dst ->
  (exists e, fst (move_rename_file src dst fs) = MoveFailed e)
  /\ is_dir src (snd (move_rename_file src dst fs)) = true.
Proof.
  intros Hdir Hpre Hne.
  assert (Hex : fs_exists src fs = true).
  { unfold fs_exists. destruct (is_dir_lookup _ _ Hdir) as [es ->]. reflexivity. }
  unfold move_rename_file. rewrite Hex. simpl. unfold mkdir_p.
  destruct (mkdir_go (path_parent dst) fs) as [fs1|] eqn:Hmk.
  - assert (Hdir1 : is_dir src fs1 = true).
    { apply stat_is_dir. eapply mkdir_go_preserves; [exact Hmk|].
      now apply stat_is_dir. }
    assert (Hraise : exists e, shutil_move src dst fs1 = Raise e).
    { unfold shutil_move. destruct (is_dir dst fs1).
      - rewrite (path_eqb_neq _ _ Hne).
        destruct (fs_exists (dst ++ [path_name src]) fs1 || path_eqb src []);
          [eauto|].
        destruct (os_rename_into_itself src (dst ++ [path_name src]) fs1)
          as [e ->]; auto.
        + destruct (path_prefix_inv _ _ Hpre) as [rest ->].
          rewrite <- List.app_assoc. apply path_prefix_app.
        + intros E. apply (f_equal (@List.length string)) in E.
          rewrite List.length_app in E. simpl in E.
          apply path_prefix_length in Hpre. lia.
        + rewrite Hdir1, Hpre. simpl. eauto.
      - destruct (os_rename_into_itself src dst fs1) as [e ->]; auto.
        rewrite Hdir1, Hpre. simpl. eauto. }
    destruct Hraise as [e ->]. simpl. eauto.
  - destruct (is_file (path_parent dst) fs); simpl; eauto.
Qed.

Lemma move_directory_into_itself_witness :
  (exists e,
      fst (move_rename_file ["t"] ["t"; "x"; "y"] fs_two_files) = MoveFailed e)
  /\ is_dir ["t"] (snd (move_rename_file ["t"] ["t"; "x"; "y"] fs_two_files))
     = true.
Proof.
  apply (move_directory_into_itself ["t"] ["t"; "x"; "y"] fs_two_files);
    [reflexivity|reflexivity|discriminate].
Defined.

(* ===================================================================== *)
(** * Moving a directory *)
(* ===================================================================== *)

(** Writing at a path changes what no path outside it names. *)
Lemma stat_fs_put_other dst v :
  forall q fs,
    path_prefix dst q = false ->
    stat q (fs_put dst v fs) = stat q fs.
Proof.
  induction dst as [|name rest IH]; intros q fs Hq; [discriminate|].
  simpl. destruct fs as [r0 w0 d0|es]; [reflexivity|].
  destruct q as [|k q'].
  { destruct (assoc name es); [reflexivity|]. now destruct rest. }
  simpl in Hq. destruct (assoc name es) as [c|] eqn:Hname.
  - rewrite !stat_cons. destruct (String.eqb_spec name k) as [->|Hk].
    + erewrite assoc_replace_entry by eauto. rewrite Hname. now apply IH.
    + rewrite assoc_replace_entry_other; [reflexivity|congruence].
  - destruct rest as [|k2 rest]; [|reflexivity]. rewrite !stat_cons.
    destruct (String.eqb_spec name k) as [->|Hk]; [discriminate|].
    rewrite assoc_snoc_other; [reflexivity|congruence].
Qed.

(** [mkdir] leaves the tree at every path it does not pass through. *)
Lemma mkdir_go_other_lookup p :
  forall fs fs1 q,
    mkdir_go p fs = Some fs1 ->
    path_prefix q p = false ->
    fs_lookup q fs1 = fs_lookup q fs.
Proof.
  induction p as [|name rest IH]; intros fs fs1 q.
  - destruct fs; simpl; [discriminate|]. now intros [= <-].
  - destruct fs as [r w d|es]; simpl; [discriminate|].
    destruct q as [|y q]; [discriminate|]. simpl.
    destruct (assoc name es) as [c|] eqn:Hname.
    + destruct (mkdir_go rest c) as [c'|] eqn:Hc; [|discriminate].
      intros [= <-] Hpre.
      destruct (String.eqb_spec y name) as [->|Hne].
      * erewrite assoc_replace_entry by eauto. rewrite Hname. eauto.
      * now rewrite assoc_replace_entry_other.
    + intros [= <-] Hpre.
      destruct (String.eqb_spec y name) as [->|Hne].
      * rewrite assoc_snoc_fresh, Hname by exact Hname.
        pose proof (stat_new_dirs_other rest q Hpre) as Hn. unfold stat in Hn.
        now destruct (fs_lookup q (new_dirs rest)).
      * now rewrite assoc_snoc_other.
Qed.

Lemma path_prefix_trans a :
  forall b c, path_prefix a b = true -> path_prefix b c = true ->
              path_prefix a c = true.
Proof.
  intros b c Hab Hbc. destruct (path_prefix_inv _ _ Hab) as [r1 ->].
  destruct (path_prefix_inv _ _ Hbc) as [r2 ->].
  rewrite <- List.app_assoc. apply path_prefix_app.
Qed.

(** X16. In a well-formed file system, moving a directory to a path
    that names nothing and does not lie below the directory, with no
    regular file standing where the destination's parents go, succeeds
    and carries the whole tree: every path below the destination then
    names what the same path below the source named, the source names
    nothing, and whatever existed outside the two is as it was. *)
Theorem move_directory_to_fresh_path (src dst : path) (fs : node)
    (es : list (string * node)) :
  well_formed fs = true ->
  src <> [] ->
  fs_lookup src fs = Some (Dir es) ->
  fs_exists dst fs = false ->
  path_prefix src dst = false ->
  (forall q, path_prefix q (path_parent dst) = true -> is_file q fs = false) ->
  let fs' := snd (move_rename_file src dst fs) in
  fst (move_rename_file src dst fs) = Moved
  /\ (forall rel, fs_lookup (dst ++ rel) fs' = fs_lookup (src ++ rel) fs)
  /\ stat src fs' = None
  /\ forall q k,
       path_prefix src q = false -> path_prefix dst q = false ->
       stat q fs = Some k -> stat q fs' = Some k.
Proof.
  intros Hwf Hsrc0 Hsrc Hfresh Hpd Hfree.
  apply stat_exists in Hfresh.
  destruct (mkdir_go_succeeds _ _ Hfree) as [fs1 Hmk].
  pose proof (well_formed_mkdir_go _ _ _ Hwf Hmk) as Hwf1.
  pose proof (mkdir_go_is_dir _ _ _ Hmk) as Hp1.
  assert (Hdst : dst <> []).
  { intros ->. unfold stat in Hfresh. simpl in Hfresh. discriminate. }
  assert (Hpp : path_prefix src (path_parent dst) = false).
  { destruct (path_prefix src (path_parent dst)) eqn:E; [|reflexivity].
    apply path_prefix_of_parent in E. congruence. }
  assert (Hs1 : fs_lookup src fs1 = Some (Dir es)).
  { rewrite <- Hsrc. eapply mkdir_go_other_lookup; eauto. }
  assert (Hd1 : stat dst fs1 = None).
  { rewrite <- Hfresh. eapply mkdir_go_other; [exact Hmk|].
    now apply path_not_prefix_of_parent. }
  assert (Hne : src <> dst).
  { intros E. rewrite E, path_prefix_refl in Hpd. discriminate. }
  assert (Hds : path_prefix dst src = false).
  { destruct (path_prefix dst src) eqn:E; [exfalso|reflexivity].
    assert (Hn : stat src fs1 = None).
    { apply (stat_below dst); auto. rewrite Hd1. discriminate. }
    unfold stat in Hn. rewrite Hs1 in Hn. discriminate. }
  assert (Hmove : move_rename_file src dst fs
                  = (Moved, fs_put dst (Dir es) (fs_remove src fs1))).
  { unfold move_rename_file, fs_exists. rewrite Hsrc. simpl.
    rewrite (mkdir_p_ok _ _ _ Hmk). unfold shutil_move.
    assert (Hnd : is_dir dst fs1 = false).
    { destruct (is_dir dst fs1) eqn:E; [|reflexivity].
      apply stat_is_dir in E. congruence. }
    rewrite Hnd. unfold os_rename. rewrite Hs1.
    destruct src as [|s0 src']; [contradiction|].
    destruct dst as [|d0 dst']; [contradiction|].
    rewrite (path_eqb_neq _ _ Hne).
    apply stat_is_dir in Hp1. rewrite Hp1. simpl negb. cbv iota.
    unfold stat in Hd1.
    destruct (fs_lookup (d0 :: dst') fs1); [discriminate|].
    now rewrite Hpd. }
  rewrite Hmove. cbn [fst snd].
  split; [reflexivity|]. split; [|split].
  - intros rel. rewrite !fs_lookup_app, Hsrc.
    rewrite (path_snoc_parent dst Hdst) at 1 2.
    rewrite fs_lookup_put_child; [reflexivity|].
    apply stat_is_dir. now rewrite stat_fs_remove_other.
  - rewrite stat_fs_put_other by exact Hds.
    now apply stat_fs_remove_same.
  - intros q k Hq1 Hq2 Hk.
    rewrite stat_fs_put_other by exact Hq2.
    rewrite stat_fs_remove_other by exact Hq1.
    eapply mkdir_go_preserves; eauto.
Qed.

Lemma move_directory_to_fresh_path_witness :
  fst (move_rename_file ["D"; "F"] ["D"; "Shows"; "F (2012)"] fs_finished_folder)
  = Moved
  /\ fs_lookup (["D"; "Shows"; "F (2012)"] ++ ["sub"; "a.mkv"])
       (snd (move_rename_file ["D"; "F"] ["D"; "Shows"; "F (2012)"]
               fs_finished_folder))
     = Some (File true true ["x"%byte])
  /\ stat ["D"; "F"]
       (snd (move_rename_file ["D"; "F"] ["D"; "Shows"; "F (2012)"]
               fs_finished_folder))
     = None.
Proof.
  edestruct (move_directory_to_fresh_path ["D"; "F"] ["D"; "Shows"; "F (2012)"]
               fs_finished_folder) as (H1 & H2 & H3 & _);
    try reflexivity; try discriminate.
  - intros q Hq. eapply (mkdir_go_free ["D"; "Shows"]); [|exact Hq]. reflexivity.
  - split; [exact H1|]. split; [|exact H3]. rewrite H2. reflexivity.
Defined.

(* ===================================================================== *)
(** * The loop changes the file system through the tools only *)
(* ===================================================================== *)

Lemma replay_app search_tmdb os_write a b fs :
  replay search_tmdb os_write (a ++ b) fs = replay search_tmdb os_write b (replay search_tmdb os_write a fs).
Proof. unfold replay. apply List.fold_left_app. Qed.

Lemma run_agent_replay search_tmdb os_write a :
  forall fs e fs' log,
    run_agent search_tmdb os_write a fs = (e, fs', log) ->
    replay search_tmdb os_write log fs = fs'
    /\ forall c message, In (ToolRan c message) log ->
         exists fs0, message = fst (exec_tool search_tmdb os_write c fs0).
Proof.
  induction a as [output|error|c k IH]; intros fs e fs' log; simpl.
  - intros [= _ <- <-]. split; [reflexivity|]. intros ? ? [].
  - intros [= _ <- <-]. split; [reflexivity|]. intros ? ? [].
  - destruct (exec_tool search_tmdb os_write c fs) as [message fs1] eqn:Hc.
    destruct (run_agent search_tmdb os_write (k message) fs1) as [[e2 fs2] log2] eqn:Hr.
    intros [= _ <- <-]. destruct (IH _ _ _ _ _ Hr) as [Hfs Hmsg]. split.
    + unfold replay in *. simpl. now rewrite Hc.
    + intros c0 m0 [[= <- <-]|Hin]; [|eauto].
      exists fs. now rewrite Hc.
Qed.

Lemma organize_pass_replay search_tmdb os_write agent i o fs :
  replay search_tmdb os_write (snd (organize_pass search_tmdb os_write agent i o fs)) fs
  = match fst (organize_pass search_tmdb os_write agent i o fs) with
    | Break _ fs' => fs'
    | Again _ fs' => fs'
    end.
Proof.
  unfold organize_pass.
  destruct (ds_files (get_directory_state o fs)) as [|first rest]; [reflexivity|].
  destruct (run_agent search_tmdb os_write (agent i (get_directory_state o fs)) fs)
    as [[e fs'] log] eqn:Hrun.
  destruct (run_agent_replay _ _ _ _ _ _ _ Hrun) as [Hfs _].
  destruct e as [output|error]; [destruct (mentions_completion output)|];
    cbn [fst snd].
  - change (Scanned (get_directory_state o fs)
            :: Invoked (get_directory_state o fs)
            :: log ++ [Recorded (fi_path first)])
      with ([Scanned (get_directory_state o fs);
             Invoked (get_directory_state o fs)]
            ++ log ++ [Recorded (fi_path first)]).
    rewrite !replay_app. cbn. exact Hfs.
  - exact Hfs.
  - exact Hfs.
Qed.

(** X17. The loop has no file-system effect of its own: the file system
    a run ends with is the one that running the logged tool calls, in
    order, yields from the file system it started with. *)
Theorem run_fs_is_tool_effects (search_tmdb : string -> string -> string)
    (os_write : path -> node -> write_fault)
    (agent : nat -> directory_state -> agent_run)
    (fuel : nat) (o : MediaOrganizer) (fs : node) :
  run_fs (organize search_tmdb os_write agent fuel o fs)
  = replay search_tmdb os_write (run_trace (organize search_tmdb os_write agent fuel o fs)) fs.
Proof.
  unfold organize. generalize 0 as i. revert o fs.
  induction fuel as [|fuel IH]; intros o fs i; [reflexivity|].
  cbn [organize_from].
  pose proof (organize_pass_replay search_tmdb os_write agent i o fs) as Hpass.
  destruct (organize_pass search_tmdb os_write agent i o fs) as [[e fs'|o' fs'] tr];
    cbn [fst snd] in Hpass; cbn [run_fs run_trace].
  - now rewrite Hpass.
  - now rewrite replay_app, Hpass, <- IH.
Qed.

(* ===================================================================== *)
(** * The script *)
(* ===================================================================== *)

Lemma snapshot_of_non_directory o fs :
  is_dir (target_directory o) fs = false ->
  ds_files (get_directory_state o fs) = [].
Proof.
  intros Hd. cbn [ds_files get_directory_state].
  unfold snapshot_items, rglob_at, is_dir in *.
  destruct (fs_lookup (target_directory o) fs) as [[r w d|es]|];
    [reflexivity|discriminate|reflexivity].
Qed.

Lemma valid_kind_spec kind :
  List.existsb (String.eqb kind) ["movie"; "tv"; "audiobook"] = true
  <-> kind = "movie" \/ kind = "tv" \/ kind = "audiobook".
Proof.
  simpl. rewrite !orb_true_iff, !String.eqb_eq. intuition discriminate.
Qed.

(** X18. The script reaches the organization loop exactly when both API
    keys are set to non-empty values, it is given exactly two arguments,
    the media type is movie, tv or audiobook, and the path exists; it
    then runs the loop on a fresh organizer for that path, with an empty
    processed set.  In every other case it exits with status 1. *)
Theorem script_reaches_loop_iff (search_tmdb : string -> string -> string)
    (os_write : path -> node -> write_fault)
    (agent : nat -> directory_state -> agent_run) (to_path : string -> path)
    (openrouter_api_key tmdb_api_key : option string)
    (fuel : nat) (argv : list string) (fs : node) :
  match script search_tmdb os_write agent to_path openrouter_api_key tmdb_api_key
          fuel argv fs with
  | Organized r =>
      unset openrouter_api_key = false
      /\ unset tmdb_api_key = false
      /\ exists program directory_path kind,
           argv = [program; directory_path; kind]
           /\ (kind = "movie" \/ kind = "tv" \/ kind = "audiobook")
           /\ fs_exists (to_path directory_path) fs = true
           /\ r = organize search_tmdb os_write agent fuel
                    (new_organizer (to_path directory_path) kind) fs
  | Exit code _ =>
      code = 1
      /\ (unset openrouter_api_key = true
          \/ unset tmdb_api_key = true
          \/ List.length argv <> 3
          \/ (exists program directory_path kind,
                 argv = [program; directory_path; kind]
                 /\ (~ (kind = "movie" \/ kind = "tv" \/ kind = "audiobook")
                     \/ fs_exists (to_path directory_path) fs = false)))
  end.
Proof.
  unfold script.
  destruct (unset openrouter_api_key); [auto|].
  destruct (unset tmdb_api_key); [auto|].
  unfold main.
  destruct argv as [|a0 [|a1 [|a2 [|a3 rest]]]];
    try (split; [reflexivity|]; right; right; left; simpl; lia).
  destruct (List.existsb (String.eqb a2) ["movie"; "tv"; "audiobook"]) eqn:Hk;
    cbn [negb].
  - apply valid_kind_spec in Hk.
    destruct (fs_exists (to_path a1) fs) eqn:He; cbn [negb].
    + split; [reflexivity|]. split; [reflexivity|].
      exists a0, a1, a2. auto.
    + split; [reflexivity|]. do 3 right. exists a0, a1, a2. auto.
  - split; [reflexivity|]. do 3 right. exists a0, a1, a2.
    split; [reflexivity|]. left. intros H%valid_kind_spec. congruence.
Qed.

(** X19. [main] tests only that the path exists: given a path that
    names a regular file (or anything that is not a directory) and a
    valid media type, it runs the loop, which ends in [Done] after one
    scan that lists nothing, without invoking the agent and without
    touching the file system. *)
Theorem main_on_non_directory (search_tmdb : string -> string -> string)
    (os_write : path -> node -> write_fault)
    (agent : nat -> directory_state -> agent_run) (to_path : string -> path)
    (fuel : nat) (program directory_path kind : string) (fs : node) :
  kind = "movie" \/ kind = "tv" \/ kind = "audiobook" ->
  fs_exists (to_path directory_path) fs = true ->
  is_dir (to_path directory_path) fs = false ->
  exists state,
    ds_files state = []
    /\ main search_tmdb os_write agent to_path (S fuel) [program; directory_path; kind] fs
       = Organized
           {| run_end := Done;
              run_self := new_organizer (to_path directory_path) kind;
              run_fs := fs;
              run_trace := [Scanned state] |}.
Proof.
  intros Hk He Hd. apply valid_kind_spec in Hk.
  exists (get_directory_state (new_organizer (to_path directory_path) kind) fs).
  pose proof (snapshot_of_non_directory
                (new_organizer (to_path directory_path) kind) fs Hd) as Hfiles.
  split; [exact Hfiles|].
  unfold main. rewrite Hk, He. cbn [negb]. unfold organize.
  cbn [organize_from]. unfold organize_pass. now rewrite Hfiles.
Qed.

Lemma main_on_non_directory_witness :
  exists state,
    ds_files state = []
    /\ main tmdb_down disk_ok agent_fails absolute_path 4
         ["main.py"; "/t/a.mkv"; "movie"] fs_two_files
       = Organized
           {| run_end := Done;
              run_self := new_organizer ["t"; "a.mkv"] "movie";
              run_fs := fs_two_files;
              run_trace := [Scanned state] |}.
Proof.
  apply (main_on_non_directory tmdb_down disk_ok agent_fails absolute_path 3
           "main.py" "/t/a.mkv" "movie" fs_two_files).
  - now left.
  - reflexivity.
  - reflexivity.
Defined.

(* ===================================================================== *)
(** * Further properties of the tools and the loop *)
(* ===================================================================== *)

(** X20. When [calculate_folder_hashes] succeeds, the folder's hash file
    is a regular file that holds exactly the JSON rendering (two-space
    indent) of the mapping the hashing loop built. *)
Theorem hashing_writes_rendered_mapping (fault : write_fault)
    (folder : path) (fs : node) :
  fst (calculate_folder_hashes fault folder fs) = HashWritten ->
  exists file_hashes,
    folder_hashes folder fs = Ok file_hashes
    /\ manifest_content folder (snd (calculate_folder_hashes fault folder fs))
       = Some (list_byte_of_string (json_dumps_indent2 file_hashes))
    /\ is_file (folder ++ [hash_filename])
         (snd (calculate_folder_hashes fault folder fs)) = true.
Proof.
  intros Hok.
  destruct (calculate_folder_hashes fault folder fs) as [out fs1] eqn:Hc.
  simpl in Hok. subst out. cbn [snd].
  destruct (calculate_folder_hashes_written _ _ _ _ Hc) as (d & Hd & Hm).
  exists d. split; [exact Hd|]. split; [exact Hm|].
  unfold manifest_content in Hm. unfold is_file, hash_filename.
  destruct (fs_lookup (folder ++ [".media_hashes.json"]) fs1) as [[? ? ?|?]|];
    [reflexivity|discriminate|discriminate].
Qed.

Lemma hashing_writes_rendered_mapping_witness :
  exists file_hashes,
    folder_hashes ["t"] fs_empty_target = Ok file_hashes
    /\ manifest_content ["t"] (snd (calculate_folder_hashes (FailsAfter 2) ["t"] fs_empty_target))
       = Some (list_byte_of_string (json_dumps_indent2 file_hashes))
    /\ is_file (["t"] ++ [hash_filename])
         (snd (calculate_folder_hashes (FailsAfter 2) ["t"] fs_empty_target)) = true.
Proof.
  apply (hashing_writes_rendered_mapping (FailsAfter 2) ["t"] fs_empty_target). reflexivity.
Defined.

(** X21. The message [mark_completed] returns always reads as a
    completion to the loop: in a pass whose agent run returns that
    message as its output, the loop records the path of the first entry
    of the snapshot, whatever path the message is about. *)
Theorem mark_completed_message_records_first
    (search_tmdb : string -> string -> string)
    (os_write : path -> node -> write_fault)
    (agent : nat -> directory_state -> agent_run)
    (i : nat) (o : MediaOrganizer) (fs fs' : node)
    (first : file_info) (rest : list file_info)
    (file_path : string) (log : list event) :
  ds_files (get_directory_state o fs) = first :: rest ->
  run_agent search_tmdb os_write (agent i (get_directory_state o fs)) fs
  = (Returned (Some (mark_completed file_path)), fs', log) ->
  processed_files (pass_self o (fst (organize_pass search_tmdb os_write agent i o fs)))
  = {[fi_path first]} ∪ processed_files o.
Proof.
  intros Hfiles Hrun. rewrite organize_pass_processed.
  cbv zeta. rewrite Hfiles, Hrun. cbn [fst].
  now rewrite mark_completed_mentions.
Qed.

Lemma mark_completed_message_records_first_witness :
  processed_files
    (pass_self (new_organizer ["t"] "movie")
       (fst (organize_pass tmdb_down disk_ok agent_moves_second 0
               (new_organizer ["t"] "movie") fs_two_files)))
  = {["/t/a.mkv"]} ∪ ∅.
Proof.
  erewrite (mark_completed_message_records_first tmdb_down disk_ok agent_moves_second 0
              (new_organizer ["t"] "movie") fs_two_files).
  2: reflexivity.
  2: reflexivity.
  reflexivity.
Defined.

Lemma mkdir_go_existing p :
  forall fs, is_dir p fs = true -> mkdir_go p fs = Some fs.
Proof.
  induction p as [|name rest IH]; intros fs Hd.
  - unfold is_dir in Hd. simpl in Hd. now destruct fs.
  - unfold is_dir in Hd. simpl in Hd. destruct fs as [r w d|es]; [discriminate|].
    simpl. destruct (assoc name es) as [c|] eqn:Hname; [|discriminate].
    rewrite (IH c); [|exact Hd]. now rewrite (replace_entry_same _ _ _ Hname).
Qed.

(** X22. Moving a path onto itself reports success and leaves the file
    system exactly as it was, for a regular file and for a directory
    other than the root. *)
Theorem move_onto_itself (src : path) (fs : node) :
  src <> [] ->
  fs_exists src fs = true ->
  move_rename_file src src fs = (Moved, fs).
Proof.
  intros Hne Hex.
  assert (Hst : stat src fs <> None).
  { intros H%stat_exists. congruence. }
  assert (Hparent : is_dir (path_parent src) fs = true).
  { apply stat_is_dir. apply (stat_above _ src); auto.
    - rewrite (path_snoc_parent src Hne) at 2. apply path_prefix_app.
    - intros E. pose proof (path_not_prefix_of_parent src Hne) as Hn.
      rewrite <- E, path_prefix_refl in Hn at 1. discriminate. }
  unfold move_rename_file. rewrite Hex. simpl. unfold mkdir_p.
  rewrite (mkdir_go_existing _ _ Hparent). unfold shutil_move.
  assert (Hren : os_rename src src fs = Ok fs).
  { unfold os_rename. unfold fs_exists in Hex.
    destruct (fs_lookup src fs); [|discriminate].
    destruct src; [contradiction|].
    unfold path_eqb. now rewrite path_prefix_refl. }
  destruct (is_dir src fs).
  - unfold path_eqb. rewrite path_prefix_refl. simpl. now rewrite Hren.
  - now rewrite Hren.
Qed.

Lemma move_onto_itself_witness :
  move_rename_file ["t"; "a.mkv"] ["t"; "a.mkv"] fs_two_files
  = (Moved, fs_two_files).
Proof.
  apply (move_onto_itself ["t"; "a.mkv"] fs_two_files); [discriminate|reflexivity].
Defined.

Lemma run_agent_log_tools search_tmdb os_write a :
  forall fs e fs' log event,
    run_agent search_tmdb os_write a fs = (e, fs', log) ->
    In event log -> exists c message, event = ToolRan c message.
Proof.
  induction a as [output|error|c k IH]; intros fs e fs' log event; simpl.
  - intros [= _ _ <-] [].
  - intros [= _ _ <-] [].
  - destruct (exec_tool search_tmdb os_write c fs) as [message fs1].
    destruct (run_agent search_tmdb os_write (k message) fs1) as [[e2 fs2] log2] eqn:Hr.
    intros [= _ _ <-] [<-|Hin]; eauto.
Qed.

(** X23. The agent is never invoked on an empty snapshot: every state a
    run hands to the agent lists at least one file, and its count of
    files is the length of that list. *)
Theorem agent_sees_nonempty_snapshots (search_tmdb : string -> string -> string)
    (os_write : path -> node -> write_fault)
    (agent : nat -> directory_state -> agent_run)
    (fuel : nat) (o : MediaOrganizer) (fs : node) (state : directory_state) :
  In (Invoked state) (run_trace (organize search_tmdb os_write agent fuel o fs)) ->
  ds_files state <> []
  /\ ds_total_files state = List.length (ds_files state).
Proof.
  unfold organize. generalize 0 as i. revert o fs.
  induction fuel as [|fuel IH]; intros o fs i; [intros []|].
  cbn [organize_from].
  assert (Hpass : forall p tr,
             organize_pass search_tmdb os_write agent i o fs = (p, tr) ->
             In (Invoked state) tr ->
             ds_files state <> []
             /\ ds_total_files state = List.length (ds_files state)).
  { intros p tr. unfold organize_pass.
    destruct (ds_files (get_directory_state o fs)) as [|first rest] eqn:Hfiles.
    - intros [= _ <-] [H|[]]. discriminate.
    - destruct (run_agent search_tmdb os_write (agent i (get_directory_state o fs)) fs)
        as [[e fs'] log] eqn:Hrun.
      assert (Hlog : ~ In (Invoked state) log).
      { intros Hin.
        destruct (run_agent_log_tools _ _ _ _ _ _ _ _ Hrun Hin) as (c & m & E).
        discriminate. }
      assert (Hhere : ds_files (get_directory_state o fs) <> []
                      /\ ds_total_files (get_directory_state o fs)
                         = List.length (ds_files (get_directory_state o fs))).
      { rewrite Hfiles. split; [discriminate|]. rewrite <- Hfiles. reflexivity. }
      destruct e as [output|error]; [destruct (mentions_completion output)|];
        intros [= _ <-] [H|[H|Hin]]; try discriminate;
        try (injection H as <-; exact Hhere); try contradiction.
      apply List.in_app_or in Hin. destruct Hin as [Hin|[H|[]]];
        [contradiction|discriminate]. }
  destruct (organize_pass search_tmdb os_write agent i o fs) as [[e fs'|o' fs'] tr] eqn:Hp;
    cbn [run_trace].
  - eauto.
  - intros Hin. apply List.in_app_or in Hin. destruct Hin as [Hin|Hin]; eauto.
Qed.

Lemma agent_sees_nonempty_snapshots_witness :
  ds_files (get_directory_state (new_organizer ["t"] "movie") fs_two_files) <> []
  /\ ds_total_files (get_directory_state (new_organizer ["t"] "movie") fs_two_files)
     = List.length
         (ds_files (get_directory_state (new_organizer ["t"] "movie") fs_two_files)).
Proof.
  apply (agent_sees_nonempty_snapshots tmdb_down disk_ok agent_fails 2
           (new_organizer ["t"] "movie") fs_two_files).
  vm_compute. right. left. reflexivity.
Defined.

(* ===================================================================== *)
(** * Hashing when the write is refused or fails *)
(* ===================================================================== *)

(** C6, as the code has it.  [calculate_folder_hashes] on a path that is
    not a directory reports that it is not one, and with a file below
    the folder that may not be read (and is not called like the hash
    file) it reports the exception [open] raised; in both cases nothing
    is written.  Whenever the tool reports anything but success, either
    the file system is what it was, or the device failed while the hash
    file was being written: then the hash file holds the bytes that got
    through, fewer than its rendering has, and no other path is
    affected. *)
Theorem C6_hash_failures (fault : write_fault) (folder : path) (fs : node) :
  (is_dir folder fs = false ->
   calculate_folder_hashes fault folder fs = (NotADirectory, fs))
  /\ (is_dir folder fs = true ->
      (exists rel w data,
          rel <> [] /\ path_name rel <> hash_filename
          /\ fs_lookup (folder ++ rel) fs = Some (File false w data)) ->
      exists p,
        calculate_folder_hashes fault folder fs
        = (HashFailed (PermissionError p), fs))
  /\ (fst (calculate_folder_hashes fault folder fs) <> HashWritten ->
      snd (calculate_folder_hashes fault folder fs) = fs
      \/ exists n file_hashes,
           let rendering := list_byte_of_string (json_dumps_indent2 file_hashes) in
           fault = FailsAfter n
           /\ folder_hashes folder fs = Ok file_hashes
           /\ n < List.length rendering
           /\ fst (calculate_folder_hashes fault folder fs)
              = HashFailed device_full
           /\ manifest_content folder
                (snd (calculate_folder_hashes fault folder fs))
              = Some (List.firstn n rendering)
           /\ forall q, q <> folder ++ [hash_filename] ->
                stat q (snd (calculate_folder_hashes fault folder fs))
                = stat q fs).
Proof.
  unfold calculate_folder_hashes. split; [|split].
  - intros ->. reflexivity.
  - intros -> (rel & w & data & Hrel & Hname & Hl). cbn [negb].
    pose proof (lookup_rglob_at _ _ _ _ Hrel Hl) as Hin.
    rewrite <- (path_name_app folder rel Hrel) in Hname.
    destruct (hash_loop_unreadable folder _ [] _ _ _ Hin Hname) as [q Hq].
    unfold folder_hashes. rewrite Hq. eauto.
  - destruct (is_dir folder fs) eqn:Hd; cbn [negb]; [|now left].
    destruct (folder_hashes folder fs) as [d|e]; [|now left].
    pose proof (write_file_effect fault (folder ++ [".media_hashes.json"])
                  (list_byte_of_string (json_dumps_indent2 d)) fs) as Heff.
    destruct (write_file fault (folder ++ [".media_hashes.json"])
                (list_byte_of_string (json_dumps_indent2 d)) fs) as [[e|] fs1];
      cbn [fst snd] in *; [|intros H; now contradiction H].
    intros _.
    destruct Heff as [[-> _]|(r & content & Hst & -> & Hc)]; [now left|].
    destruct Hc as [[Hnone _]|(n & -> & Hn & [= ->] & ->)]; [discriminate|].
    right. exists n, d. cbv zeta.
    split; [reflexivity|]. split; [reflexivity|]. split; [exact Hn|].
    split; [reflexivity|]. split; [now apply manifest_content_put|].
    intros q Hq. now apply stat_fs_put_file.
Qed.

Lemma C6_hash_failures_witness :
  calculate_folder_hashes (FailsAfter 0) ["t"; "a.mkv"] fs_locked_file
  = (NotADirectory, fs_locked_file)
  /\ (exists p,
        calculate_folder_hashes (FailsAfter 0) ["t"] fs_locked_file
        = (HashFailed (PermissionError p), fs_locked_file))
  /\ snd (calculate_folder_hashes CreateDenied ["t"] fs_two_files)
     = fs_two_files.
Proof.
  split; [|split].
  - apply (proj1 (C6_hash_failures (FailsAfter 0) ["t"; "a.mkv"] fs_locked_file)).
    reflexivity.
  - apply (proj1 (proj2 (C6_hash_failures (FailsAfter 0) ["t"] fs_locked_file))).
    + reflexivity.
    + exists ["locked.mkv"], true, ["b"%byte].
      repeat split; [discriminate|discriminate].
  - destruct (proj2 (proj2 (C6_hash_failures CreateDenied ["t"] fs_two_files)))
      as [H|(n & d & H & _)].
    + vm_compute. discriminate.
    + exact H.
    + discriminate H.
Defined.

(** C6 as stated fails: the folder is a directory and all its files can
    be read, the device fails after five bytes of the hash file were
    written; the tool reports a failure, and a hash file that was not
    there before now holds those five bytes. *)
Lemma C6_counterexample :
  let result := calculate_folder_hashes (FailsAfter 5) ["t"] fs_two_files in
  fst result = HashFailed device_full
  /\ hash_message ["t"] (fst result)
     = "Error calculating hashes: [Errno 28] No space left on device"
  /\ manifest_content ["t"] fs_two_files = None
  /\ manifest_content ["t"] (snd result)
     = Some (List.firstn 5
               (list_byte_of_string
                  ("{" +:+ newline +:+ "  " +:+ json_string "a.mkv")))
  /\ snd result <> fs_two_files.
Proof.
  vm_compute. repeat split. discriminate.
Qed.

(** C7.  A run of [calculate_folder_hashes] that reports success leaves
    a hash file in the folder.  If nothing in the folder is changed
    afterwards, a second run succeeds when the operating system takes
    the write, and every second run that succeeds leaves a hash file
    with the very bytes the first one wrote. *)
Theorem C7_manifest_reproducible (fault : write_fault) (folder : path)
    (fs fs' : node) :
  fst (calculate_folder_hashes fault folder fs) = HashWritten ->
  fs_lookup folder fs'
  = fs_lookup folder (snd (calculate_folder_hashes fault folder fs)) ->
  exists data,
    manifest_content folder (snd (calculate_folder_hashes fault folder fs))
    = Some data
    /\ fst (calculate_folder_hashes NoFault folder fs') = HashWritten
    /\ forall fault',
         fst (calculate_folder_hashes fault' folder fs') = HashWritten ->
         manifest_content folder
           (snd (calculate_folder_hashes fault' folder fs'))
         = Some data.
Proof.
  intros Hok Hsame.
  destruct (calculate_folder_hashes_success _ _ _ Hok)
    as (es & d & r & Hes & Hd & Hold & Hfs).
  assert (Hdir : is_dir folder fs = true) by (unfold is_dir; now rewrite Hes).
  rewrite Hfs in Hsame |- *.
  rewrite (fs_put_child _ _ _ _ _ Hes) in Hsame.
  pose proof (folder_hashes_after_write _ _ _ _ _ _ _ Hes Hold Hsame) as Hd'.
  rewrite Hd in Hd'.
  assert (Hdir' : is_dir folder fs' = true) by (unfold is_dir; now rewrite Hsame).
  exists (list_byte_of_string (json_dumps_indent2 d)).
  split; [now apply manifest_content_put|]. split.
  - unfold calculate_folder_hashes. rewrite Hdir', Hd'. cbn [negb].
    unfold write_file.
    rewrite (fs_lookup_child _ _ _ _ Hsame), assoc_put_entry. reflexivity.
  - intros fault' Hok'.
    destruct (calculate_folder_hashes_success _ _ _ Hok')
      as (es' & d' & r' & _ & Hd'' & _ & Hfs').
    rewrite Hd' in Hd''. injection Hd'' as <-.
    rewrite Hfs'. now apply manifest_content_put.
Qed.

Lemma C7_manifest_reproducible_witness :
  exists data,
    manifest_content ["t"]
      (snd (calculate_folder_hashes NoFault ["t"] fs_two_files))
    = Some data
    /\ fst (calculate_folder_hashes NoFault ["t"]
              (snd (calculate_folder_hashes NoFault ["t"] fs_two_files)))
       = HashWritten
    /\ forall fault',
         fst (calculate_folder_hashes fault' ["t"]
                (snd (calculate_folder_hashes NoFault ["t"] fs_two_files)))
         = HashWritten ->
         manifest_content ["t"]
           (snd (calculate_folder_hashes fault' ["t"]
                   (snd (calculate_folder_hashes NoFault ["t"]
                           fs_two_files))))
         = Some data.
Proof.
  apply (C7_manifest_reproducible NoFault ["t"] fs_two_files
           (snd (calculate_folder_hashes NoFault ["t"] fs_two_files)));
    reflexivity.
Defined.

(** X3. In a well-formed file system, [calculate_folder_hashes]
    succeeds exactly when the folder is a directory, every regular file
    below it that is not called like the hash file may be read, the hash
    file's path is neither a directory nor a file that may not be
    written, the operating system lets the hash file be created when it
    is not there yet, and the device takes every byte of its
    rendering. *)
Theorem hashing_succeeds_iff (fault : write_fault) (folder : path)
    (fs : node) :
  well_formed fs = true ->
  (fst (calculate_folder_hashes fault folder fs) = HashWritten
   <->
   is_dir folder fs = true
   /\ (forall rel r w data,
          rel <> [] ->
          fs_lookup (folder ++ rel) fs = Some (File r w data) ->
          path_name rel <> hash_filename -> r = true)
   /\ is_dir (folder ++ [hash_filename]) fs = false
   /\ (forall r w data,
          fs_lookup (folder ++ [hash_filename]) fs = Some (File r w data) ->
          w = true)
   /\ (fs_lookup (folder ++ [hash_filename]) fs = None ->
       fault <> CreateDenied)
   /\ (forall n file_hashes,
          fault = FailsAfter n ->
          folder_hashes folder fs = Ok file_hashes ->
          List.length (list_byte_of_string (json_dumps_indent2 file_hashes))
          <= n)).
Proof.
  intros Hwf. unfold calculate_folder_hashes. split.
  - destruct (is_dir folder fs) eqn:Hd; cbn [negb]; [|discriminate].
    destruct (folder_hashes folder fs) as [d|e] eqn:Hh; [|discriminate].
    assert (Hread : forall rel r w data,
               rel <> [] ->
               fs_lookup (folder ++ rel) fs = Some (File r w data) ->
               path_name rel <> hash_filename -> r = true).
    { intros rel r w data Hrel Hl Hname.
      destruct r; [reflexivity|exfalso].
      pose proof (lookup_rglob_at _ _ _ _ Hrel Hl) as Hin.
      rewrite <- (path_name_app folder rel Hrel) in Hname.
      destruct (hash_loop_unreadable folder _ [] _ _ _ Hin Hname) as [q Hq].
      unfold folder_hashes in Hh. congruence. }
    assert (Hlen : forall m,
               fst (write_bytes fault (folder ++ [".media_hashes.json"])
                      m true (list_byte_of_string (json_dumps_indent2 d)) fs)
               = None ->
               forall n d', fault = FailsAfter n -> Ok d = Ok d' ->
                 List.length (list_byte_of_string (json_dumps_indent2 d'))
                 <= n).
    { intros m Hw n d' -> [= <-]. unfold write_bytes in Hw.
      destruct (Nat.ltb_spec n
                  (List.length (list_byte_of_string (json_dumps_indent2 d))));
        [discriminate|assumption]. }
    unfold write_file, hash_filename.
    destruct (fs_lookup (folder ++ [".media_hashes.json"]) fs)
      as [[r0 w0 d0|es]|] eqn:Hm; cbn [fst]; try discriminate.
    + destruct w0; [|discriminate]. intros Hok.
      split; [reflexivity|]. split; [exact Hread|].
      split; [unfold is_dir; now rewrite Hm|].
      split; [intros r w data E; now injection E as _ <- _|].
      split; [discriminate|].
      apply (Hlen r0).
      destruct (write_bytes fault (folder ++ [".media_hashes.json"]) r0 true
                  (list_byte_of_string (json_dumps_indent2 d)) fs)
        as [[e|] fs1]; [discriminate|reflexivity].
    + rewrite path_parent_snoc, Hd. intros Hok.
      split; [reflexivity|]. split; [exact Hread|].
      split; [unfold is_dir; now rewrite Hm|]. split; [discriminate|].
      split; [intros _ ->; discriminate|].
      apply (Hlen true).
      destruct fault as [| |n]; [reflexivity|discriminate|].
      destruct (write_bytes (FailsAfter n) (folder ++ [".media_hashes.json"])
                  true true (list_byte_of_string (json_dumps_indent2 d)) fs)
        as [[e|] fs1]; [discriminate|reflexivity].
  - intros (Hd & Hread & Hnodir & Hwrite & Hcreate & Hroom).
    rewrite Hd. cbn [negb].
    destruct (hash_loop_readable folder (rglob_at folder fs) []) as [d Hd'].
    { intros p r w data Hin Hname.
      destruct (rglob_at_lookup _ _ _ _ Hwf Hin) as (rel & Hrel & -> & Hl).
      rewrite (path_name_app _ _ Hrel) in Hname. eauto. }
    unfold folder_hashes in *. rewrite Hd' in *.
    assert (Hbytes : forall m,
               write_bytes fault (folder ++ [".media_hashes.json"]) m true
                 (list_byte_of_string (json_dumps_indent2 d)) fs
               = (None,
                  fs_put (folder ++ [".media_hashes.json"])
                    (File m true (list_byte_of_string (json_dumps_indent2 d)))
                    fs)).
    { intros m. unfold write_bytes. destruct fault as [| |n]; try reflexivity.
      specialize (Hroom n d eq_refl eq_refl).
      destruct (Nat.ltb_spec n
                  (List.length (list_byte_of_string (json_dumps_indent2 d))));
        [lia|reflexivity]. }
    unfold write_file.
    unfold is_dir, hash_filename in Hnodir. unfold hash_filename in Hwrite, Hcreate.
    destruct (fs_lookup (folder ++ [".media_hashes.json"]) fs)
      as [[r0 w0 d0|es]|] eqn:Hm; try discriminate.
    + rewrite (Hwrite r0 w0 d0 eq_refl), Hbytes. reflexivity.
    + rewrite path_parent_snoc, Hd.
      specialize (Hcreate eq_refl).
      destruct fault as [| |n]; [|now contradiction Hcreate|];
        rewrite Hbytes; reflexivity.
Qed.

Lemma hashing_succeeds_iff_witness :
  is_dir (["t"] ++ [hash_filename]) fs_two_files = false
  /\ fst (calculate_folder_hashes CreateDenied ["t"] fs_two_files)
     <> HashWritten
  /\ fst (calculate_folder_hashes NoFault ["t"] fs_locked_file)
     <> HashWritten.
Proof.
  split; [|split].
  - apply (proj1 (hashing_succeeds_iff NoFault ["t"] fs_two_files eq_refl)).
    vm_compute. reflexivity.
  - intros H.
    apply (proj1 (hashing_succeeds_iff CreateDenied ["t"] fs_two_files eq_refl))
      in H.
    destruct H as (_ & _ & _ & _ & Hcreate & _).
    now apply Hcreate.
  - intros H.
    apply (proj1 (hashing_succeeds_iff NoFault ["t"] fs_locked_file eq_refl))
      in H.
    destruct H as (_ & Hread & _).
    specialize (Hread ["locked.mkv"] false true ["b"%byte]).
    discriminate Hread; [discriminate|reflexivity|discriminate].
Defined.

(* ===================================================================== *)
(** * The order of scans and invocations *)
(* ===================================================================== *)

(** The trace of one pass: the scan alone when it found nothing, else
    the scan, the invocation on what it found, and events that are
    neither. *)
Lemma organize_pass_trace search_tmdb os_write agent i o fs :
  let state := get_directory_state o fs in
  (ds_files state = []
   /\ organize_pass search_tmdb os_write agent i o fs
      = (Break Done fs, [Scanned state]))
  \/ (exists p tail,
        organize_pass search_tmdb os_write agent i o fs
        = (p, Scanned state :: Invoked state :: tail)
        /\ (forall s, ~ In (Invoked s) tail)
        /\ match p with Break Done _ => False | _ => True end).
Proof.
  intros state. unfold organize_pass. fold state.
  destruct (ds_files state) as [|first rest]; [left; auto|right].
  destruct (run_agent search_tmdb os_write (agent i state) fs)
    as [[e fs'] log] eqn:Hrun.
  assert (Hlog : forall s, ~ In (Invoked s) log).
  { intros s Hin.
    destruct (run_agent_log_tools _ _ _ _ _ _ _ _ Hrun Hin) as (c & m & E).
    discriminate E. }
  destruct e as [output|error].
  - destruct (mentions_completion output).
    + eexists _, _. split; [reflexivity|]. split; [|exact I].
      intros s [Hin|[E|[]]]%List.in_app_or; [exact (Hlog s Hin)|discriminate E].
    + eexists _, _. split; [reflexivity|]. split; [exact Hlog|exact I].
  - eexists _, _. split; [reflexivity|]. split; [exact Hlog|exact I].
Qed.

Lemma app_before_invoked (tail rest : list event) :
  (forall s, ~ In (Invoked s) tail) ->
  forall pre x post,
    tail ++ rest = pre ++ Invoked x :: post ->
    exists pre2, pre = tail ++ pre2 /\ rest = pre2 ++ Invoked x :: post.
Proof.
  induction tail as [|a tail IH]; intros Hno pre x post E.
  - exists pre. auto.
  - destruct pre as [|b pre]; simpl in E.
    + injection E as -> _. exfalso. apply (Hno x). now left.
    + injection E as -> E.
      destruct (IH (fun s H => Hno s (or_intror H)) pre x post E)
        as (pre2 & -> & ->).
      exists pre2. auto.
Qed.

Lemma organize_from_order search_tmdb os_write agent fuel :
  forall i o fs,
    let r := organize_from search_tmdb os_write agent fuel i o fs in
    (forall pre state post,
        run_trace r = pre ++ Invoked state :: post ->
        exists pre', pre = pre' ++ [Scanned state])
    /\ (run_end r = Done ->
        exists pre state,
          run_trace r = pre ++ [Scanned state] /\ ds_files state = []).
Proof.
  induction fuel as [|fuel IH]; intros i o fs r; unfold r; clear r.
  - simpl. split; [|discriminate].
    intros [|a pre] state post E; discriminate E.
  - cbn [organize_from].
    destruct (organize_pass_trace search_tmdb os_write agent i o fs)
      as [[Hempty ->]|(p & tail & -> & Hno & Hp)].
    + cbn [run_trace run_end]. split.
      * intros [|a [|b pre]] state post E; discriminate E.
      * intros _. exists [], (get_directory_state o fs). auto.
    + set (st := get_directory_state o fs) in *.
      assert (Hhead : forall rest pre state post,
                 Scanned st :: Invoked st :: tail ++ rest
                 = pre ++ Invoked state :: post ->
                 pre = [Scanned st] /\ state = st
                 \/ exists pre2,
                      pre = Scanned st :: Invoked st :: tail ++ pre2
                      /\ rest = pre2 ++ Invoked state :: post).
      { intros rest pre state post E.
        destruct pre as [|a [|b pre]]; simpl in E; [discriminate E| |].
        - injection E as Ea Es _. subst a. left. split; [reflexivity|now symmetry].
        - injection E as Ea Eb E. subst a b. right.
          destruct (app_before_invoked tail rest Hno pre state post E)
            as (pre2 & -> & ->).
          exists pre2. auto. }
      destruct p as [e fs'|o' fs']; cbn [run_trace run_end].
      * split.
        -- intros pre state post E.
           rewrite <- (List.app_nil_r tail) in E.
           destruct (Hhead [] pre state post E)
             as [[-> ->]|(pre2 & _ & E2)]; [now exists []|].
           destruct pre2; discriminate E2.
        -- intros ->. contradiction.
      * specialize (IH (S i) o' fs'). cbv zeta in IH.
        destruct IH as [IHorder IHdone]. split.
        -- intros pre state post E. simpl in E.
           destruct (Hhead _ pre state post E)
             as [[-> ->]|(pre2 & -> & E2)]; [now exists []|].
           destruct (IHorder pre2 state post E2) as [pre' ->].
           exists (Scanned st :: Invoked st :: tail ++ pre').
           simpl. now rewrite <- List.app_assoc.
        -- intros Hdone. destruct (IHdone Hdone) as (pre & state & -> & Hfiles).
           exists ((Scanned st :: Invoked st :: tail) ++ pre), state.
           split; [now rewrite <- List.app_assoc|exact Hfiles].
Qed.

(** X8. In the trace of every run an agent invocation comes right after
    a scan, and it is on the state that scan found.  A run that ends in
    [Done] ends with a scan that found nothing, so it has one scan more
    than invocations; any other run has as many scans as invocations.
    A run cut after [fuel] passes has invoked the agent [fuel] times, an
    aborted run at least once, and no run more often than it makes
    passes. *)
Theorem run_scans_and_invocations (search_tmdb : string -> string -> string)
    (os_write : path -> node -> write_fault)
    (agent : nat -> directory_state -> agent_run)
    (fuel : nat) (o : MediaOrganizer) (fs : node) :
  let r := organize search_tmdb os_write agent fuel o fs in
  (forall pre state post,
      run_trace r = pre ++ Invoked state :: post ->
      exists pre', pre = pre' ++ [Scanned state])
  /\ (run_end r = Done ->
      exists pre state,
        run_trace r = pre ++ [Scanned state] /\ ds_files state = [])
  /\ scans (run_trace r)
     = invocations (run_trace r) + match run_end r with Done => 1 | _ => 0 end
  /\ invocations (run_trace r) <= fuel
  /\ (run_end r = Aborted -> 1 <= invocations (run_trace r))
  /\ (run_end r = Running -> invocations (run_trace r) = fuel).
Proof.
  intros r. unfold r, organize.
  destruct (organize_from_order search_tmdb os_write agent fuel 0 o fs)
    as [Horder Hdone].
  destruct (organize_from_invariant search_tmdb os_write agent fuel 0 o fs)
    as (_ & _ & _ & _ & Hs & Hle & _ & Ha & Hr).
  auto 10.
Qed.

Lemma run_scans_and_invocations_witness :
  let o := new_organizer ["t"] "movie" in
  let r := organize tmdb_down disk_ok agent_fails 3 o fs_two_files in
  run_end r = Aborted
  /\ (exists pre',
        [Scanned (get_directory_state o fs_two_files)]
        = pre' ++ [Scanned (get_directory_state o fs_two_files)])
  /\ 1 <= invocations (run_trace r).
Proof.
  intros o r.
  destruct (run_scans_and_invocations tmdb_down disk_ok agent_fails 3 o
              fs_two_files) as (Horder & _ & _ & _ & Ha & _).
  split; [reflexivity|]. split.
  - apply (Horder [Scanned (get_directory_state o fs_two_files)] _
             [ToolRan (SearchTmdb "a" "movie") "{}"]).
    reflexivity.
  - apply Ha. reflexivity.
Defined.
